(** * Right-Aligned Code: the alignment passes and the Fibonacci indent table

    A shallow embedding of the four TypeScript variants of the extension
    (the pad-to-max listener of [src/extension.ts], the caret-preserving
    right-alignment pass, the rerun-aware right-alignment pass, and the
    command file with the Fibonacci helpers, [alignDocument] and
    [unalignDocument]), followed by the properties of the specification
    settled against them. *)

From Stdlib Require Import ZArith Lia List Sorted SpecFloat.
From stdpp Require Import gmap strings list fin_maps pretty.

(** ** Computations that may need more steps than the fuel they are given *)

(** [f] is a fuel-indexed computation; it returns [v] when some amount of
    fuel lets it finish with [v]. *)
Definition returns {A : Type} (f : nat -> option A) (v : A) : Prop :=
  exists fuel, f fuel = Some v.

(** More fuel never changes a result that was already produced. *)
Definition fuel_monotone {A : Type} (f : nat -> option A) : Prop :=
  forall fuel v, f fuel = Some v -> f (S fuel) = Some v.

(** ** JavaScript numbers

    A TypeScript [number] is an IEEE 754 binary64 value.  The Fibonacci
    helpers add and multiply such values without any bound on them, so
    they are embedded over the Standard Library's executable model of
    binary64 ([spec_float] at precision 53 and maximal exponent 1024,
    rounding to nearest with ties to even).  Line numbers, columns and
    string lengths stay far below 2^53, where number arithmetic is exact:
    the alignment passes are embedded over [Z]. *)

Module JsNumber.
Local Open Scope Z_scope.

Definition number : Type := spec_float.

Definition prec : Z := 53.
Definition emax : Z := 1024.

(** The number denoted by an integer literal. *)
Definition of_Z (z : Z) : number := binary_normalize prec emax z 0 false.

(** [x + y], [x * y], [x <= y] and [x === y] on numbers. *)
Definition add (x y : number) : number := SFadd prec emax x y.
Definition mul (x y : number) : number := SFmul prec emax x y.
Definition leb (x y : number) : bool := SFleb x y.
Definition strict_eqb (x y : number) : bool := SFeqb x y.

(** The integer a number is exactly equal to, when it is one. *)
Definition to_Z (x : number) : option Z :=
  match x with
  | S754_zero _ => Some 0
  | S754_finite s m e =>
      if 0 <=? e then Some (cond_Zopp s (Z.pos m * 2 ^ e))
      else if (Z.pos m) mod (2 ^ (- e)) =? 0
           then Some (cond_Zopp s (Z.pos m / 2 ^ (- e)))
           else None
  | S754_infinity _ | S754_nan => None
  end.

(** [represents v z]: the number [v] is exactly the integer [z]. *)
Definition represents (v : number) (z : Z) : Prop := to_Z v = Some z.

End JsNumber.

(** ** The Fibonacci indent helpers of the command file *)

Module Fibonacci.
Import JsNumber.
Local Open Scope Z_scope.

(** [for (let i = 2; i <= n; i++) { let temp = a + b; a = b; b = temp; }]
    followed by [return b].  One unit of fuel is spent per evaluation of
    the loop condition. *)
Fixpoint fibonacci_loop (fuel : nat) (n i a b : number) : option number :=
  match fuel with
  | O => None
  | S fuel' =>
      if leb i n then
        let temp := add a b in
        fibonacci_loop fuel' n (add i (of_Z 1)) b temp
      else Some b
  end.

(** [function fibonacci(n: number): number] *)
Definition fibonacci (n : number) (fuel : nat) : option number :=
  if leb n (of_Z 1) then Some n
  else fibonacci_loop fuel n (of_Z 2) (of_Z 0) (of_Z 1).

(** [function getFibonacciSpacesForDepth(depth: number): number] *)
Definition getFibonacciSpacesForDepth (depth : number) (fuel : nat) : option number :=
  if strict_eqb depth (of_Z 0) then Some (of_Z 0)
  else
    let multiplier := of_Z 2 in
    let fibIndex := add depth (of_Z 1) in
    match fibonacci fibIndex fuel with
    | Some f => Some (mul f multiplier)
    | None => None
    end.

(** The standard Fibonacci sequence as the specification words it:
    F(0) = 0, F(1) = 1 and F(n) = F(n-1) + F(n-2) from 2 on. *)
Fixpoint Fib_pair (n : nat) : Z * Z :=
  match n with
  | O => (0, 1)
  | S k => let '(x, y) := Fib_pair k in (y, x + y)
  end.

Definition Fib (n : nat) : Z := fst (Fib_pair n).

(** [fibonacci(n)] returns, and returns exactly the integer [z]. *)
Definition fibonacci_at (n : nat) (z : Z) : Prop :=
  exists v, returns (fibonacci (of_Z (Z.of_nat n))) v /\ represents v z.

(** [getFibonacciSpacesForDepth(d)] returns, and returns exactly [z]. *)
Definition width_at (d : nat) (z : Z) : Prop :=
  exists v, returns (getFibonacciSpacesForDepth (of_Z (Z.of_nat d))) v /\ represents v z.

(** Executable checks of the two helpers against an expected value, with
    the fuel the loop needs at that argument. *)
Definition width_agrees (expected : nat -> Z) (d : nat) : bool :=
  match getFibonacciSpacesForDepth (of_Z (Z.of_nat d)) (S d) with
  | Some v =>
      match to_Z v with
      | Some z => z =? expected d
      | None => false
      end
  | None => false
  end.

Definition fibonacci_agrees (n : nat) : bool :=
  match fibonacci (of_Z (Z.of_nat n)) n with
  | Some v =>
      match to_Z v with
      | Some z => z =? Fib n
      | None => false
      end
  | None => false
  end.

(** The width the specification's formula gives at depth [d]. *)
Definition spec_width (d : nat) : Z :=
  match d with
  | O => 0
  | S _ => Fib (d + 1) * 2
  end.

End Fibonacci.

(** ** Text, documents and the editor host *)

Module Host.
Local Open Scope Z_scope.

(** A line of text is a sequence of UTF-16 code units, as [text.length]
    and the regular expression of the source see it. *)
Abbreviation Text := (list N).
Abbreviation Doc := (list (list N)).

Definition SPACE : N := 32%N.

(** The code units matched by [\s]: the WhiteSpace and LineTerminator
    code points of ECMAScript, all of which are single code units. *)
Definition isWhiteSpace (c : N) : bool :=
  ((9 <=? c) && (c <=? 13) || (c =? 32) || (c =? 160) || (c =? 5760)
   || (8192 <=? c) && (c <=? 8202) || (c =? 8232) || (c =? 8233)
   || (c =? 8239) || (c =? 8287) || (c =? 12288) || (c =? 65279))%N.

(** The match of [/^\s*/]: the longest prefix of white space. *)
Fixpoint leadingWhitespace (text : Text) : Text :=
  match text with
  | c :: rest => if isWhiteSpace c then c :: leadingWhitespace rest else []
  | [] => []
  end.

(** [text.length] *)
Definition text_length (text : Text) : Z := Z.of_nat (length text).

(** [text.match(/^\s*/)?.[0]?.length || 0] *)
Definition leadingLength (text : Text) : Z := text_length (leadingWhitespace text).

(** Content length: line length minus leading width. *)
Definition contentLength (text : Text) : Z := text_length text - leadingLength text.

(** [' '.repeat(n)]; every call site passes a non-negative [n] (it is
    either [Math.max(0, ...)] or guarded by [pad > 0]), so the RangeError
    of a negative count is never reached. *)
Definition repeat_space (n : Z) : Text := replicate (Z.to_nat n) SPACE.

(** An ASCII literal as a line of text. *)
Definition text_of_string (s : string) : Text :=
  map Ascii.N_of_ascii (String.list_ascii_of_string s).

Record Position := mkPosition { line : Z; character : Z }.
Record Range := mkRange { range_start : Position; range_end : Position }.

(** A selection as the passes read and rebuild it: its [start] and its
    [end] position. *)
Record Selection := mkSelection { sel_start : Position; sel_end : Position }.

(** The calls a callback makes on the [editBuilder]. *)
Inductive EditOp :=
| Replace (r : Range) (newText : Text)
| Insert (p : Position) (newText : Text)
| Delete (r : Range).

Record Editor := mkEditor { document : Doc; selections : list Selection }.

(** [doc.lineAt(i)] throws when [i] is not a line of the document. *)
Definition lineAt (d : Doc) (i : Z) : option Text :=
  if i <? 0 then None else d !! Z.to_nat i.

(** The text of one line with the columns [a, b) replaced by [new]. *)
Definition spliceLine (a b : Z) (new : Text) (text : Text) : Text :=
  take (Z.to_nat a) text ++ new ++ drop (Z.to_nat b) text.

Definition spliceAt (l a b : Z) (new : Text) (d : Doc) : Doc :=
  if l <? 0 then d else alter (spliceLine a b new) (Z.to_nat l) d.

(** What the editor does with one call of the builder.  Every range the
    extension builds lies within one line; an operation that spans lines
    is never issued and is left out. *)
Definition applyOp (d : Doc) (op : EditOp) : Doc :=
  match op with
  | Replace r new =>
      if line (range_start r) =? line (range_end r)
      then spliceAt (line (range_start r)) (character (range_start r))
                    (character (range_end r)) new d
      else d
  | Insert p new => spliceAt (line p) (character p) (character p) new d
  | Delete r =>
      if line (range_start r) =? line (range_end r)
      then spliceAt (line (range_start r)) (character (range_start r))
                    (character (range_end r)) [] d
      else d
  end.

(** A batch is applied as one transaction against the coordinates of the
    document it was computed from.  The extension issues at most one
    operation per line, each inside its line, so applying them in turn
    gives the same document. *)
Definition applyOps (ops : list EditOp) (d : Doc) : Doc := foldl applyOp d ops.

(** The ways [await editor.edit(...)] can end. *)
Inductive EditOutcome :=
| Applied (ed' : Editor)  (* resolves, the editor now holds [ed'] *)
| NotApplied              (* resolves to false, nothing changed *)
| Rejected (err : string) (* the promise rejects: [await] throws *).

(** The editor host as the passes meet it: how a batch ends, whether a
    change event is delivered while the batch is awaited, and whether
    assigning [editor.selections] throws. *)
Record HostBehaviour := mkHost {
  edit : Editor -> list EditOp -> EditOutcome;
  changeEventWhileBusy : bool;
  setSelections : list Selection -> option string
}.

(** A host that applies every batch faithfully.  Applying a batch fires
    the document-change event before the promise resolves.  [track] is
    the way the editor carries the selections across a batch. *)
Definition idealHost (track : Editor -> list EditOp -> list Selection) : HostBehaviour :=
  {| edit := fun ed ops => Applied (mkEditor (applyOps ops (document ed)) (track ed ops));
     changeEventWhileBusy := true;
     setSelections := fun _ => None |}.

(** What the timer callback finds when it fires: whether the document
    was closed, and the editor showing it, if any. *)
Record Env := mkEnv { isClosed : bool; editor : option Editor }.

(** The variables [activate] closes over.  A variant that does not
    declare one of them never reads or writes it. *)
Record Ext := mkExt {
  isApplyingEdits : bool;
  needsRerun : bool;
  timers : gmap string Z;   (* uri -> delay of the pending timeout *)
  lastMax : gmap string Z;
  channel : list string     (* lines appended to the output channel *)
}.

Definition initialExt : Ext :=
  {| isApplyingEdits := false; needsRerun := false;
     timers := ∅; lastMax := ∅; channel := [] |}.

Definition set_isApplyingEdits (b : bool) (e : Ext) : Ext :=
  {| isApplyingEdits := b; needsRerun := needsRerun e; timers := timers e;
     lastMax := lastMax e; channel := channel e |}.

Definition set_needsRerun (b : bool) (e : Ext) : Ext :=
  {| isApplyingEdits := isApplyingEdits e; needsRerun := b; timers := timers e;
     lastMax := lastMax e; channel := channel e |}.

Definition set_timers (t : gmap string Z) (e : Ext) : Ext :=
  {| isApplyingEdits := isApplyingEdits e; needsRerun := needsRerun e; timers := t;
     lastMax := lastMax e; channel := channel e |}.

Definition set_lastMax (uri : string) (v : Z) (e : Ext) : Ext :=
  {| isApplyingEdits := isApplyingEdits e; needsRerun := needsRerun e;
     timers := timers e; lastMax := <[uri := v]> (lastMax e); channel := channel e |}.

(** [channel.appendLine(msg)] *)
Definition appendLine (msg : string) (e : Ext) : Ext :=
  {| isApplyingEdits := isApplyingEdits e; needsRerun := needsRerun e;
     timers := timers e; lastMax := lastMax e; channel := channel e ++ [msg] |}.

(** *** Statements that may throw, over the state of a pass *)

(** [Throw err] carries the text [String(err)] of what was thrown, which
    is what the [catch] blocks append to their prefix. *)
Inductive Result (A : Type) :=
| Ok (a : A)
| Throw (err : string).
Arguments Ok {A} a.
Arguments Throw {A} err.

Definition State : Type := Ext * Editor.

Definition M (A : Type) : Type := State -> State * Result A.

Definition ret {A} (a : A) : M A := fun s => (s, Ok a).

Definition bind {A B} (m : M A) (k : A -> M B) : M B :=
  fun s =>
    match m s with
    | (s', Ok a) => k a s'
    | (s', Throw err) => (s', Throw err)
    end.

Notation "'let*' x ':=' c 'in' k" := (bind c (fun x => k))
  (at level 10, x pattern, c at level 100, k at level 200).

Definition getExt : M Ext := fun s => (s, Ok (fst s)).
Definition getEditor : M Editor := fun s => (s, Ok (snd s)).
Definition modifyExt (f : Ext -> Ext) : M unit := fun s => ((f (fst s), snd s), Ok tt).

(** A computation that touches no state but may throw. *)
Definition lift {A} (r : Result A) : M A := fun s => (s, r).

(** [await editor.edit(callback, ...)] where the callback issued [ops].
    [whileBusy] is what the change listener does to the closure state
    when an event reaches it during the wait. *)
Definition awaitEdit (h : HostBehaviour) (whileBusy : Ext -> Ext)
    (ops : list EditOp) : M bool :=
  fun s =>
    let '(e, ed) := s in
    let e' := if changeEventWhileBusy h then whileBusy e else e in
    match edit h ed ops with
    | Applied ed' => ((e', ed'), Ok true)
    | NotApplied => ((e', ed), Ok false)
    | Rejected err => ((e', ed), Throw err)
    end.

(** [try { editor.selections = sels } catch (err) { channel.appendLine(...) }] *)
Definition trySetSelections (h : HostBehaviour) (sels : list Selection) : M unit :=
  fun s =>
    let '(e, ed) := s in
    match setSelections h sels with
    | None => ((e, {| document := document ed; selections := sels |}), Ok tt)
    | Some err => ((appendLine ("Failed to restore selections: " +:+ err) e, ed), Ok tt)
    end.

(** [try { body } catch (err) { channel.appendLine(prefix + err) } finally { cleanup }] *)
Definition tryCatchFinally (body : M unit) (prefix : string)
    (cleanup : Ext -> Ext) (s : State) : State :=
  match body s with
  | ((e, ed), Ok _) => (cleanup e, ed)
  | ((e, ed), Throw err) => (cleanup (appendLine (prefix +:+ err) e), ed)
  end.

End Host.

(** ** [src/extension.ts]: pad every line to the longest line *)

Module PadToMax.
Import Host.
Local Open Scope Z_scope.

Definition DEBOUNCE_MS : Z := 50.

(** The listener up to the point where it arms the timer.
    [contentChanges] is [event.contentChanges.length]. *)
Definition onDidChangeTextDocument (contentChanges : nat) (uri : string) (e : Ext) : Ext :=
  if isApplyingEdits e then e
  else if Nat.eqb contentChanges 0 then e
  else set_timers (<[uri := DEBOUNCE_MS]> (timers e)) e.

(** [for (i ...) { const len = doc.lineAt(i).text.length; if (len > maxLen) maxLen = len; }] *)
Fixpoint maxLenLoop (lines : Doc) (maxLen : Z) : Z :=
  match lines with
  | [] => maxLen
  | text :: rest =>
      let len := text_length text in
      maxLenLoop rest (if len >? maxLen then len else maxLen)
  end.

(** The callback given to [editor.edit]: line [i] gets
    [insert(Position(i, 0), ' '.repeat(pad))] when [pad > 0]. *)
Fixpoint padLoop (lines : Doc) (i : Z) (maxLen : Z) : list EditOp :=
  match lines with
  | [] => []
  | text :: rest =>
      let pad := maxLen - text_length text in
      (if pad >? 0 then [Insert (mkPosition i 0) (repeat_space pad)] else [])
        ++ padLoop rest (i + 1) maxLen
  end.

(** The body of the [try] block of the timer callback. *)
Definition tryBody (h : HostBehaviour) (uri : string) : M unit :=
  let* ed := getEditor in
  let doc := document ed in
  let maxLen := maxLenLoop doc 0 in
  let* e := getExt in
  let prev := default 0 (lastMax e !! uri) in
  if maxLen =? prev then
    modifyExt (appendLine ("No change in max length (" +:+ pretty maxLen
                           +:+ ") for " +:+ uri))
  else
    let* _ := modifyExt (set_isApplyingEdits true) in
    let* _ := awaitEdit h (onDidChangeTextDocument 1 uri) (padLoop doc 0 maxLen) in
    let* _ := modifyExt (set_lastMax uri maxLen) in
    modifyExt (appendLine ("Applied left padding to reach length " +:+ pretty maxLen
                           +:+ " for " +:+ uri)).

(** The debounced timer callback: one alignment pass. *)
Definition timerCallback (h : HostBehaviour) (uri : string) (env : Env) (e : Ext)
    : Ext * Env :=
  let e1 := set_timers (delete uri (timers e)) e in
  if isClosed env then (e1, env)
  else
    match editor env with
    | None => (e1, env)
    | Some ed =>
        let '(e2, ed2) :=
          tryCatchFinally (tryBody h uri) "Error during padding: "
                          (set_isApplyingEdits false) (e1, ed) in
        (e2, {| isClosed := isClosed env; editor := Some ed2 |})
    end.

End PadToMax.

(** ** The caret-preserving right-alignment pass *)

Module CaretAlign.
Import Host.
Local Open Scope Z_scope.

Definition DEBOUNCE_MS : Z := 0.

Definition onDidChangeTextDocument (contentChanges : nat) (uri : string) (e : Ext) : Ext :=
  if isApplyingEdits e then e
  else if Nat.eqb contentChanges 0 then e
  else set_timers (<[uri := DEBOUNCE_MS]> (timers e)) e.

(** First loop: [contents.push(contentLen)] and the running maximum. *)
Fixpoint measureLoop (lines : Doc) (contents : list Z) (maxContentLen : Z)
    : list Z * Z :=
  match lines with
  | [] => (contents, maxContentLen)
  | text :: rest =>
      let leading := leadingLength text in
      let contentLen := text_length text - leading in
      measureLoop rest (contents ++ [contentLen])
                  (if contentLen >? maxContentLen then contentLen else maxContentLen)
  end.

Record PaddingEdit := mkPaddingEdit {
  edit_line : Z;
  replaceRange : Range;
  newText : Text
}.

Record Plan := mkPlan {
  edits : list PaddingEdit;
  lineDelta : gmap Z Z;
  desiredLeadingByLine : gmap Z Z
}.

Definition emptyPlan : Plan :=
  {| edits := []; lineDelta := ∅; desiredLeadingByLine := ∅ |}.

(** Second loop: the desired leading width of every line, and an edit
    for every line that is not at it. *)
Fixpoint planLoop (lines : Doc) (i : Z) (contents : list Z) (maxContentLen : Z)
    (p : Plan) : Plan :=
  match lines with
  | [] => p
  | text :: rest =>
      let leading := leadingLength text in
      let contentLen := default 0 (contents !! Z.to_nat i) in
      let desiredLeading := Z.max 0 (maxContentLen - contentLen) in
      let desired' := <[i := desiredLeading]> (desiredLeadingByLine p) in
      let p' :=
        if leading =? desiredLeading
        then {| edits := edits p; lineDelta := lineDelta p;
                desiredLeadingByLine := desired' |}
        else
          let newPrefix := repeat_space desiredLeading in
          let replaceRange := mkRange (mkPosition i 0) (mkPosition i leading) in
          {| edits := edits p ++ [mkPaddingEdit i replaceRange newPrefix];
             lineDelta := <[i := desiredLeading - leading]> (lineDelta p);
             desiredLeadingByLine := desired' |} in
      planLoop rest (i + 1) contents maxContentLen p'
  end.

(** Both loops over a document snapshot. *)
Definition computePlan (edoc : Doc) : Plan * Z :=
  let '(contents, maxContentLen) := measureLoop edoc [] 0 in
  (planLoop edoc 0 contents maxContentLen emptyPlan, maxContentLen).

Record Offsets := mkOffsets { startOffset : Z; endOffset : Z }.

(** [String(err)] of the [Error] that [lineAt] throws for a line the
    document does not have: the name of the error, a colon, its message. *)
Definition illegalLine : string := "Error: Illegal value for `line`".

(** The content offsets of the selections, captured before the edit. *)
Fixpoint captureOffsets (edoc : Doc) (oldSelections : list Selection)
    (offsets : list Offsets) : Result (list Offsets) :=
  match oldSelections with
  | [] => Ok offsets
  | s :: rest =>
      let startLine := line (sel_start s) in
      let endLine := line (sel_end s) in
      match lineAt edoc startLine, lineAt edoc endLine with
      | Some startText, Some endText =>
          let startLeading := leadingLength startText in
          let endLeading := leadingLength endText in
          let startOffset := Z.max 0 (character (sel_start s) - startLeading) in
          let endOffset := Z.max 0 (character (sel_end s) - endLeading) in
          captureOffsets edoc rest (offsets ++ [mkOffsets startOffset endOffset])
      | _, _ => Throw illegalLine
      end
  end.

(** The selections rebuilt after the edit.  [newDoc] is [editor.document]
    as the editor holds it once the batch has been awaited. *)
Fixpoint restoreLoop (newDoc : Doc) (desired : gmap Z Z) (offsets : list Offsets)
    (oldSelections : list Selection) (idx : nat)
    (newSelections : list Selection) : Result (list Selection) :=
  match oldSelections with
  | [] => Ok newSelections
  | s :: rest =>
      let startLine := line (sel_start s) in
      let endLine := line (sel_end s) in
      let startDesired := default 0 (desired !! startLine) in
      let endDesired := default 0 (desired !! endLine) in
      match offsets !! idx with
      | None => Throw "TypeError: Cannot read properties of undefined (reading 'startOffset')"
      | Some off =>
          let newStartCol := Z.max 0 (startDesired + startOffset off) in
          let newEndCol := Z.max 0 (endDesired + endOffset off) in
          match lineAt newDoc startLine, lineAt newDoc endLine with
          | Some newStartText, Some newEndText =>
              let clampedStart := Z.min newStartCol (text_length newStartText) in
              let clampedEnd := Z.min newEndCol (text_length newEndText) in
              restoreLoop newDoc desired offsets rest (S idx)
                (newSelections ++ [mkSelection (mkPosition startLine clampedStart)
                                               (mkPosition endLine clampedEnd)])
          | _, _ => Throw illegalLine
          end
      end
  end.

Definition toOp (e : PaddingEdit) : EditOp := Replace (replaceRange e) (newText e).

(** The body of the [try] block of [runAlignment]. *)
Definition tryBody (h : HostBehaviour) (uri : string) : M unit :=
  let* ed := getEditor in
  let edoc := document ed in
  let '(plan, maxContentLen) := computePlan edoc in
  if Nat.eqb (length (edits plan)) 0 then
    let* _ := modifyExt (set_lastMax uri maxContentLen) in
    modifyExt (appendLine ("No padding edits required for " +:+ uri +:+ " (max "
                           +:+ pretty maxContentLen +:+ ")"))
  else
    let oldSelections := selections ed in
    let* offsets := lift (captureOffsets edoc oldSelections []) in
    let* _ := modifyExt (set_isApplyingEdits true) in
    let* _ := awaitEdit h (onDidChangeTextDocument 1 uri) (map toOp (edits plan)) in
    let* ed' := getEditor in
    let* newSelections :=
      lift (restoreLoop (document ed') (desiredLeadingByLine plan) offsets
                        oldSelections 0 []) in
    let* _ := trySetSelections h newSelections in
    let* _ := modifyExt (set_lastMax uri maxContentLen) in
    modifyExt (appendLine ("Applied " +:+ pretty (Z.of_nat (length (edits plan)))
                           +:+ " padding edits with cursor preservation to align to "
                           +:+ pretty maxContentLen +:+ " for " +:+ uri)).

(** [runAlignment], the timer callback: one alignment pass. *)
Definition runAlignment (h : HostBehaviour) (uri : string) (env : Env) (e : Ext)
    : Ext * Env :=
  let e1 := set_timers (delete uri (timers e)) e in
  if isClosed env then (e1, env)
  else
    match editor env with
    | None => (e1, env)
    | Some ed =>
        let '(e2, ed2) :=
          tryCatchFinally (tryBody h uri) "Error during padding: "
                          (set_isApplyingEdits false) (e1, ed) in
        (e2, {| isClosed := isClosed env; editor := Some ed2 |})
    end.

End CaretAlign.

(** ** The rerun-aware right-alignment pass *)

Module RerunAlign.
Import Host.
Local Open Scope Z_scope.

Definition DEBOUNCE_MS : Z := 15.

(** The listener: an event that arrives while a batch is being applied
    only records that another pass is needed. *)
Definition onDidChangeTextDocument (contentChanges : nat) (uri : string) (e : Ext) : Ext :=
  if isApplyingEdits e then set_needsRerun true e
  else if Nat.eqb contentChanges 0 then e
  else set_timers (<[uri := DEBOUNCE_MS]> (timers e)) e.

Record LineContent := mkLineContent {
  lc_text : Text;
  leading : Z;
  contentLen : Z
}.

(** Step 1: [lineContents.push({ text, leading, contentLen })] and the
    running maximum. *)
Fixpoint measureLoop (lines : Doc) (lineContents : list LineContent)
    (maxContentLen : Z) : list LineContent * Z :=
  match lines with
  | [] => (lineContents, maxContentLen)
  | text :: rest =>
      let leading := leadingLength text in
      let contentLen := text_length text - leading in
      measureLoop rest (lineContents ++ [mkLineContent text leading contentLen])
                  (if contentLen >? maxContentLen then contentLen else maxContentLen)
  end.

Record RangeEdit := mkRangeEdit { range : Range; newText : Text }.

(** Step 2: [for (let i = 0; i < lineCount; i++)] over [lineContents[i]];
    [remaining] is [lineCount - i]. *)
Fixpoint editLoop (remaining : nat) (i : Z) (lineContents : list LineContent)
    (maxContentLen : Z) (edits : list RangeEdit) : Result (list RangeEdit) :=
  match remaining with
  | O => Ok edits
  | S remaining' =>
      match lineContents !! Z.to_nat i with
      | None => Throw "TypeError: Cannot destructure property 'leading' of 'lineContents[i]' as it is undefined."
      | Some lc =>
          let desiredLeading := Z.max 0 (maxContentLen - contentLen lc) in
          let edits' :=
            if leading lc =? desiredLeading then edits
            else
              let range := mkRange (mkPosition i 0) (mkPosition i (leading lc)) in
              let newText := repeat_space desiredLeading in
              edits ++ [mkRangeEdit range newText] in
          editLoop remaining' (i + 1) lineContents maxContentLen edits'
      end
  end.

(** Both loops over a document snapshot. *)
Definition computeEdits (edoc : Doc) : Result (list RangeEdit) :=
  let '(lineContents, maxContentLen) := measureLoop edoc [] 0 in
  editLoop (length edoc) 0 lineContents maxContentLen [].

Definition toOp (e : RangeEdit) : EditOp := Replace (range e) (newText e).

(** The body of the [try] block of [runAlignment]. *)
Definition tryBody (h : HostBehaviour) (uri : string) : M unit :=
  let* _ := modifyExt (set_isApplyingEdits true) in
  let* ed := getEditor in
  let edoc := document ed in
  let* edits := lift (computeEdits edoc) in
  if Nat.eqb (length edits) 0 then
    modifyExt (set_isApplyingEdits false)
  else
    let* _ := awaitEdit h (onDidChangeTextDocument 1 uri) (map toOp edits) in
    ret tt.

(** The [finally] block: release the guard and, when an event was seen
    while busy, schedule the pass again at once. *)
Definition finallyBlock (uri : string) (e : Ext) : Ext :=
  let e1 := set_isApplyingEdits false e in
  if needsRerun e1
  then set_timers (<[uri := 0]> (timers e1)) (set_needsRerun false e1)
  else e1.

(** [runAlignment], the timer callback: one alignment pass. *)
Definition runAlignment (h : HostBehaviour) (uri : string) (env : Env) (e : Ext)
    : Ext * Env :=
  let e1 := set_timers (delete uri (timers e)) e in
  if isClosed env then (e1, env)
  else
    match editor env with
    | None => (e1, env)
    | Some ed =>
        let '(e2, ed2) :=
          tryCatchFinally (tryBody h uri) "Error aligning: "
                          (finallyBlock uri) (e1, ed) in
        (e2, {| isClosed := isClosed env; editor := Some ed2 |})
    end.

End RerunAlign.

(** ** The command file: the live change listener *)

Module LiveAlign.
Import Host.
Local Open Scope Z_scope.

(** The variables the listener closes over and writes to: the guard, and
    the lines it sends to [console.error]. *)
Record Closure := mkClosure {
  isApplyingEdits : bool;
  console : list string
}.

(** [for (i ...) { const len = doc.lineAt(i).text.length; if (len > maxLength) maxLength = len; }] *)
Fixpoint maxLengthLoop (lines : Doc) (maxLength : Z) : Z :=
  match lines with
  | [] => maxLength
  | text :: rest =>
      let len := text_length text in
      maxLengthLoop rest (if len >? maxLength then len else maxLength)
  end.

(** [if (len < maxLength) { needEdit = true; break; }] over all lines. *)
Fixpoint needEditLoop (lines : Doc) (maxLength : Z) : bool :=
  match lines with
  | [] => false
  | text :: rest =>
      let len := text_length text in
      if len <? maxLength then true else needEditLoop rest maxLength
  end.

(** The callback given to [editor.edit]. *)
Fixpoint padLoop (lines : Doc) (i : Z) (maxLength : Z) : list EditOp :=
  match lines with
  | [] => []
  | text :: rest =>
      let pad := maxLength - text_length text in
      (if pad >? 0 then [Insert (mkPosition i 0) (repeat_space pad)] else [])
        ++ padLoop rest (i + 1) maxLength
  end.

(** The listener of [onDidChangeTextDocument].  [visible] is the editor
    found among [visibleTextEditors] for the document of the event.  An
    event delivered while the batch is awaited finds the guard set and
    returns at once. *)
Definition changeListener (h : HostBehaviour) (visible : option Editor) (c : Closure)
    : Closure * option Editor :=
  if isApplyingEdits c then (c, visible)
  else
    match visible with
    | None => (c, None)
    | Some editor =>
        let doc := document editor in
        let maxLength := maxLengthLoop doc 0 in
        let needEdit := needEditLoop doc maxLength in
        if negb needEdit then
          ({| isApplyingEdits := false; console := console c |}, Some editor)
        else
          match edit h editor (padLoop doc 0 maxLength) with
          | Applied editor' =>
              ({| isApplyingEdits := false; console := console c |}, Some editor')
          | NotApplied =>
              ({| isApplyingEdits := false; console := console c |}, Some editor)
          | Rejected err =>
              ({| isApplyingEdits := false;
                  console := console c ++ ["Error applying right-align edits: " +:+ err] |},
               Some editor)
          end
    end.

End LiveAlign.

(** ** The command file: [alignDocument] and [unalignDocument] *)

Module Commands.
Import Host.
Local Open Scope Z_scope.

(** [if (text.length > maxLength) maxLength = text.length] over all lines. *)
Fixpoint maxLengthLoop (lines : Doc) (maxLength : Z) : Z :=
  match lines with
  | [] => maxLength
  | text :: rest =>
      maxLengthLoop rest (if text_length text >? maxLength
                          then text_length text else maxLength)
  end.

(** The callback of [alignDocument]. *)
Fixpoint alignLoop (lines : Doc) (i : Z) (maxLength : Z) : list EditOp :=
  match lines with
  | [] => []
  | currentText :: rest =>
      let pad := maxLength - text_length currentText in
      (if pad >? 0 then [Insert (mkPosition i 0) (repeat_space pad)] else [])
        ++ alignLoop rest (i + 1) maxLength
  end.

(** The callback of [unalignDocument]: [line.text.length > 0 && line.text[0] === ' ']. *)
Fixpoint unalignLoop (lines : Doc) (i : Z) : list EditOp :=
  match lines with
  | [] => []
  | text :: rest =>
      (if (text_length text >? 0) && bool_decide (head text = Some SPACE)
       then [Delete (mkRange (mkPosition i 0) (mkPosition i 1))] else [])
        ++ unalignLoop rest (i + 1)
  end.

(** How a command that awaits one batch on the active editor ends: the
    editor afterwards, or the rejection of its promise. *)
Definition runBatch (h : HostBehaviour) (editor : Editor) (ops : list EditOp)
    : Result (option Editor) :=
  match edit h editor ops with
  | Applied editor' => Ok (Some editor')
  | NotApplied => Ok (Some editor)
  | Rejected err => Throw err
  end.

(** [async function alignDocument()]; [active] is
    [vscode.window.activeTextEditor]. *)
Definition alignDocument (h : HostBehaviour) (active : option Editor)
    : Result (option Editor) :=
  match active with
  | None => Ok None
  | Some editor =>
      let document := document editor in
      let maxLength := maxLengthLoop document 0 in
      runBatch h editor (alignLoop document 0 maxLength)
  end.

(** [async function unalignDocument()] *)
Definition unalignDocument (h : HostBehaviour) (active : option Editor)
    : Result (option Editor) :=
  match active with
  | None => Ok None
  | Some editor => runBatch h editor (unalignLoop (document editor) 0)
  end.

(** The editor a command leaves behind when it is run on the active
    editor of a host that applies every batch, in the extension as
    [activate] sets it up.  The command awaits its batch; when the batch
    has changed the document, the change event reaches
    [LiveAlign.changeListener], which the same [activate] registers.  The
    commands never set the guard of the listener, so the listener finds
    it released, and the active editor is among the visible ones.  The
    event of the listener's own batch finds the guard set or, delivered
    after the [finally], no line shorter than the longest: it changes
    nothing either way. *)
Definition afterCommand (track : Editor -> list EditOp -> list Selection)
    (cmd : HostBehaviour -> option Editor -> Result (option Editor))
    (ed : Editor) : Editor :=
  match cmd (idealHost track) (Some ed) with
  | Ok (Some ed') =>
      if decide (document ed' = document ed) then ed'
      else
        match snd (LiveAlign.changeListener (idealHost track) (Some ed')
                     (LiveAlign.mkClosure false [])) with
        | Some ed'' => ed''
        | None => ed'
        end
  | _ => ed
  end.

(** The width [alignDocument] inserts on a line, and the largest width
    it inserts on any line of the document. *)
Definition padOf (d : Doc) (text : Text) : Z :=
  Z.max 0 (maxLengthLoop d 0 - text_length text).

Definition maxPad (d : Doc) : Z := foldr Z.max 0 (map (padOf d) d).

(** The length of the longest line. *)
Definition maxLength (d : Doc) : Z := foldr (fun text m => Z.max (text_length text) m) 0 d.

(** What the two callbacks issue for one line, and what the editor makes
    of the line. *)
Definition alignOps (m : Z) (i : Z) (text : Text) : list EditOp :=
  if m - text_length text >? 0
  then [Insert (mkPosition i 0) (repeat_space (m - text_length text))] else [].

Definition padLine (m : Z) (text : Text) : Text :=
  if m - text_length text >? 0 then repeat_space (m - text_length text) ++ text else text.

Definition startsWithSpace (text : Text) : bool :=
  (text_length text >? 0) && bool_decide (head text = Some SPACE).

Definition unalignOps (i : Z) (text : Text) : list EditOp :=
  if startsWithSpace text
  then [Delete (mkRange (mkPosition i 0) (mkPosition i 1))] else [].

Definition unalignLine (text : Text) : Text :=
  if startsWithSpace text then drop 1 text else text.

End Commands.

(** ** The vocabulary of the specification for the alignment passes *)

Module AlignSpec.
Import Host.
Local Open Scope Z_scope.

(** The maximum content length over all lines of a document. *)
Definition maxContentLength (d : Doc) : Z :=
  foldr (fun text m => Z.max (contentLength text) m) 0 d.

(** Right-alignment: the maximum content length minus the content length
    of the line, floored at 0. *)
Definition desiredWidth (d : Doc) (text : Text) : Z :=
  Z.max 0 (maxContentLength d - contentLength text).

(** The content of a line: what follows its leading white space. *)
Definition content (text : Text) : Text := drop (length (leadingWhitespace text)) text.

(** A position or a selection that lies on lines of the document. *)
Definition validPosition (d : Doc) (p : Position) : Prop :=
  0 <= line p < Z.of_nat (length d).

Definition validSelection (d : Doc) (s : Selection) : Prop :=
  validPosition d (sel_start s) /\ validPosition d (sel_end s).

(** The content offset of a caret at column [c] of a line. *)
Definition contentOffset (text : Text) (c : Z) : Z := Z.max 0 (c - leadingLength text).

(** The operations issued for the lines of a document, line by line:
    [mk i text] is what line [i] contributes. *)
Fixpoint collect {A : Type} (mk : Z -> Text -> list A) (lines : Doc) (i : Z) : list A :=
  match lines with
  | [] => []
  | text :: rest => mk i text ++ collect mk rest (i + 1)
  end.

(** [lineEdit mk f]: the operations [mk i text] issued for line [i]
    rewrite that line to [f text] and nothing else. *)
Definition lineEdit (mk : Z -> Text -> list EditOp) (f : Text -> Text) : Prop :=
  forall (i : nat) (text : Text) (d : Doc),
    d !! i = Some text ->
    foldl applyOp d (mk (Z.of_nat i) text) = <[i := f text]> d.

(** Replacing the leading white space of a line by [w] spaces. *)
Definition replacePrefix (i : Z) (text : Text) (w : Z) : EditOp :=
  Replace (mkRange (mkPosition i 0) (mkPosition i (leadingLength text))) (repeat_space w).

(** What right-alignment to a maximum [m] issues for a line, and what it
    makes of the line: a line at its desired width is left alone. *)
Definition realignOps (m : Z) (i : Z) (text : Text) : list EditOp :=
  if leadingLength text =? Z.max 0 (m - contentLength text) then []
  else [replacePrefix i text (Z.max 0 (m - contentLength text))].

Definition realign (m : Z) (text : Text) : Text :=
  if leadingLength text =? Z.max 0 (m - contentLength text) then text
  else repeat_space (Z.max 0 (m - contentLength text)) ++ content text.

(** The caret rule of the specification for an endpoint [p] moved to
    [p']: it stays on its line, whose leading width is now the desired
    width w_new, at column min(w_new + k, newLineLength), [k] being its
    content offset before the edit. *)
Definition caretRule (old new : Doc) (p p' : Position) : Prop :=
  line p' = line p /\
  exists oldText newText,
    lineAt old (line p) = Some oldText /\
    lineAt new (line p) = Some newText /\
    leadingLength newText = desiredWidth old oldText /\
    character p' = Z.min (desiredWidth old oldText + contentOffset oldText (character p))
                         (text_length newText).

(** The text of a line that exists. *)
Definition lineText (d : Doc) (l : Z) : Text := default [] (lineAt d l).

(** The offsets the caret-preserving pass captures for a selection, and
    the selection it builds from them once line [l] has leading width
    [desired l] in the document [new]. *)
Definition offsetsOf (d : Doc) (s : Selection) : CaretAlign.Offsets :=
  CaretAlign.mkOffsets
    (contentOffset (lineText d (line (sel_start s))) (character (sel_start s)))
    (contentOffset (lineText d (line (sel_end s))) (character (sel_end s))).

Definition movedCaret (old new : Doc) (desired : gmap Z Z) (p : Position) : Position :=
  mkPosition (line p)
    (Z.min (Z.max 0 (default 0 (desired !! line p)
                     + contentOffset (lineText old (line p)) (character p)))
           (text_length (lineText new (line p)))).

Definition movedSelection (old new : Doc) (desired : gmap Z Z) (s : Selection) : Selection :=
  mkSelection (movedCaret old new desired (sel_start s))
              (movedCaret old new desired (sel_end s)).

(** What the rerun-aware pass records for a line, and the edits it
    pushes for line [i] when the maximum is [m]. *)
Definition lineContentOf (text : Text) : RerunAlign.LineContent :=
  RerunAlign.mkLineContent text (leadingLength text) (text_length text - leadingLength text).

Definition rangeEdits (m : Z) (i : Z) (text : Text) : list RerunAlign.RangeEdit :=
  if leadingLength text =? Z.max 0 (m - contentLength text) then []
  else [RerunAlign.mkRangeEdit
          (mkRange (mkPosition i 0) (mkPosition i (leadingLength text)))
          (repeat_space (Z.max 0 (m - contentLength text)))].

(** The state in which a timer callback finds an open document shown by
    an editor, and what it leaves there. *)
Definition shown (d : Doc) (sels : list Selection) : Env :=
  {| isClosed := false; editor := Some (mkEditor d sels) |}.

Definition documentAfter (r : Ext * Env) : Doc :=
  match editor (snd r) with
  | Some ed => document ed
  | None => []
  end.

Definition selectionsAfter (r : Ext * Env) : list Selection :=
  match editor (snd r) with
  | Some ed => selections ed
  | None => []
  end.

End AlignSpec.

(** ** Further vocabulary: bursts of events, passes in a row, batches *)

Module PassSpec.
Import Host AlignSpec.
Local Open Scope Z_scope.

(** The number of space characters a line begins with. *)
Fixpoint leadingSpaces (text : Text) : nat :=
  match text with
  | c :: rest => if N.eqb c SPACE then S (leadingSpaces rest) else O
  | [] => O
  end.

(** The number of leading spaces common to all lines of a document. *)
Definition commonSpaces (d : Doc) : nat :=
  match d with
  | [] => O
  | text :: rest => foldr (fun t m => Nat.min (leadingSpaces t) m) (leadingSpaces text) rest
  end.

(** The events of a burst delivered one after the other to a listener,
    all for the document [uri]; an event is given by the length of its
    [contentChanges]. *)
Definition burst (listener : nat -> string -> Ext -> Ext) (uri : string)
    (events : list nat) (e : Ext) : Ext :=
  foldl (fun e n => listener n uri e) e events.

(** Whether some event of a burst carries a change. *)
Definition carriesChange (events : list nat) : bool :=
  existsb (fun n => negb (Nat.eqb n 0)) events.

(** A pass run on what the previous pass has left. *)
Definition thenPass (pass : Env -> Ext -> Ext * Env) (r : Ext * Env) : Ext * Env :=
  pass (snd r) (fst r).

(** A host that applies every batch but throws when the selections are
    assigned, and a host that refuses every batch. *)
Definition selectionsThrow (track : Editor -> list EditOp -> list Selection)
    (err : string) : HostBehaviour :=
  {| edit := edit (idealHost track);
     changeEventWhileBusy := true;
     setSelections := fun _ => Some err |}.

Definition refusingHost : HostBehaviour :=
  {| edit := fun _ _ => NotApplied;
     changeEventWhileBusy := false;
     setSelections := fun _ => None |}.

(** The edits the caret-preserving pass pushes for line [i] when the
    maximum is [m]. *)
Definition paddingEdits (m : Z) (i : Z) (text : Text) : list CaretAlign.PaddingEdit :=
  if leadingLength text =? Z.max 0 (m - contentLength text) then []
  else [CaretAlign.mkPaddingEdit i
          (mkRange (mkPosition i 0) (mkPosition i (leadingLength text)))
          (repeat_space (Z.max 0 (m - contentLength text)))].

(** An endpoint [p] moved to [p'] stays anchored to the content of its
    line: it stays on its line, whose content is unchanged; from a
    column on the content (or at its end) it moves to the same offset in
    the content; from a column inside the leading white space it moves
    to the start of the content. *)
Definition anchored (old new : Doc) (p p' : Position) : Prop :=
  line p' = line p /\
  exists oldText newText,
    lineAt old (line p) = Some oldText /\
    lineAt new (line p) = Some newText /\
    content newText = content oldText /\
    (leadingLength oldText <= character p <= text_length oldText ->
       character p' - leadingLength newText = character p - leadingLength oldText
       /\ leadingLength newText <= character p' <= text_length newText) /\
    (character p < leadingLength oldText -> character p' = leadingLength newText).

(** What a pass for the document [uri] may change in the closure state
    [e], leaving [e']: nothing that is kept for another document, and
    the log only by appending to it. *)
Definition keepsOthers (uri : string) (e e' : Ext) : Prop :=
  (forall uri', uri' <> uri ->
     timers e' !! uri' = timers e !! uri' /\ lastMax e' !! uri' = lastMax e !! uri')
  /\ channel e `prefix_of` channel e'.

(** The entry of [lineDelta] for a line. *)
Definition deltaOf (m : Z) (text : Text) : option Z :=
  if leadingLength text =? Z.max 0 (m - contentLength text) then None
  else Some (Z.max 0 (m - contentLength text) - leadingLength text).

End PassSpec.

(** * Properties *)

(** ** Fuel *)

Section FuelFacts.
Context {A : Type} (f : nat -> option A) (Hmono : fuel_monotone f).

Lemma fuel_monotone_le (fuel fuel' : nat) (v : A) :
  (fuel <= fuel')%nat -> f fuel = Some v -> f fuel' = Some v.
Proof.
  intros Hle Hf.
  induction Hle as [|k _ IH]; [exact Hf|].
  apply Hmono, IH.
Qed.

Lemma returns_deterministic (v v' : A) : returns f v -> returns f v' -> v = v'.
Proof.
  intros [k Hk] [k' Hk'].
  pose proof (fuel_monotone_le k (max k k') v (Nat.le_max_l _ _) Hk) as H1.
  pose proof (fuel_monotone_le k' (max k k') v' (Nat.le_max_r _ _) Hk') as H2.
  congruence.
Qed.

End FuelFacts.

(** ** The Fibonacci helpers *)

Module FibonacciFacts.
Import JsNumber Fibonacci.
Local Open Scope Z_scope.

(** [Fib] is the sequence of the specification. *)
Lemma Fib_standard :
  Fib 0 = 0 /\ Fib 1 = 1 /\ forall n, Fib (S (S n)) = Fib (S n) + Fib n.
Proof.
  split; [reflexivity|]. split; [reflexivity|].
  intros n. unfold Fib. simpl. destruct (Fib_pair n) as [x y]. simpl. lia.
Qed.

Lemma fibonacci_loop_monotone (n i a b : number) :
  fuel_monotone (fun fuel => fibonacci_loop fuel n i a b).
Proof.
  intros fuel. revert i a b.
  induction fuel as [|k IH]; intros i a b v H; [discriminate|].
  cbn [fibonacci_loop] in *.
  destruct (leb i n); [apply IH, H|exact H].
Qed.

Lemma fibonacci_monotone (n : number) : fuel_monotone (fibonacci n).
Proof.
  intros fuel v. unfold fibonacci.
  destruct (leb n (of_Z 1)); [auto|apply fibonacci_loop_monotone].
Qed.

Lemma getFibonacciSpacesForDepth_monotone (d : number) :
  fuel_monotone (getFibonacciSpacesForDepth d).
Proof.
  intros fuel v. unfold getFibonacciSpacesForDepth.
  destruct (strict_eqb d (of_Z 0)); [auto|].
  destruct (fibonacci (add d (of_Z 1)) fuel) as [f|] eqn:E; [|discriminate].
  rewrite (fibonacci_monotone _ _ _ E). auto.
Qed.

(** A number is exactly one integer at most. *)
Lemma represents_functional (v : number) (z z' : Z) :
  represents v z -> represents v z' -> z = z'.
Proof. unfold represents. congruence. Qed.

(** What the checks establish. *)
Lemma fibonacci_agrees_sound (n : nat) :
  fibonacci_agrees n = true ->
  exists v, fibonacci (of_Z (Z.of_nat n)) n = Some v /\ represents v (Fib n).
Proof.
  unfold fibonacci_agrees, represents.
  destruct (fibonacci _ n) as [v|]; [|discriminate].
  destruct (to_Z v) as [z|] eqn:Ez; [|discriminate].
  intros H%Z.eqb_eq. subst z. exists v. split; [reflexivity|exact Ez].
Qed.

Lemma width_agrees_sound (expected : nat -> Z) (d : nat) :
  width_agrees expected d = true ->
  exists v, getFibonacciSpacesForDepth (of_Z (Z.of_nat d)) (S d) = Some v
            /\ represents v (expected d).
Proof.
  unfold width_agrees, represents.
  destruct (getFibonacciSpacesForDepth _ (S d)) as [v|]; [|discriminate].
  destruct (to_Z v) as [z|] eqn:Ez; [|discriminate].
  intros H%Z.eqb_eq. subst z. exists v. split; [reflexivity|exact Ez].
Qed.

(** Every argument up to 78 passes the check: the sums stay below 2^53,
    where the addition of numbers is exact. *)
Lemma fibonacci_agrees_to_78 : forallb fibonacci_agrees (seq 0 79) = true.
Proof. vm_compute. reflexivity. Qed.

Lemma width_agrees_to_77 : forallb (width_agrees spec_width) (seq 0 78) = true.
Proof. vm_compute. reflexivity. Qed.

(** A result that differs from the expected integer refutes [width_at]
    and [fibonacci_at], whatever the fuel. *)
Lemma fibonacci_at_unique (n : nat) (fuel : nat) (v : number) (z z' : Z) :
  fibonacci (of_Z (Z.of_nat n)) fuel = Some v -> represents v z ->
  fibonacci_at n z' -> z' = z.
Proof.
  intros Hv Hz (v' & Hr & Hz').
  assert (v' = v) as ->.
  { eapply (returns_deterministic _ (fibonacci_monotone _)); [exact Hr|].
    exists fuel. exact Hv. }
  eapply represents_functional; eassumption.
Qed.

Lemma width_at_unique (d : nat) (fuel : nat) (v : number) (z z' : Z) :
  getFibonacciSpacesForDepth (of_Z (Z.of_nat d)) fuel = Some v -> represents v z ->
  width_at d z' -> z' = z.
Proof.
  intros Hv Hz (v' & Hr & Hz').
  assert (v' = v) as ->.
  { eapply (returns_deterministic _ (getFibonacciSpacesForDepth_monotone _)); [exact Hr|].
    exists fuel. exact Hv. }
  eapply represents_functional; eassumption.
Qed.

(** C10 (as amended).  For every natural number n up to 78, [fibonacci(n)]
    returns, given the n evaluations of the loop condition it needs or
    more, and the number it returns is exactly the standard Fibonacci
    number F(n) with F(0)=0, F(1)=1, F(n)=F(n-1)+F(n-2). *)
Theorem fibonacci_standard_to_78 (n fuel : nat) :
  (n <= 78)%nat -> (n <= fuel)%nat ->
  exists v, fibonacci (of_Z (Z.of_nat n)) fuel = Some v /\ represents v (Fib n).
Proof.
  intros Hn Hfuel.
  pose proof fibonacci_agrees_to_78 as Hall.
  rewrite forallb_forall in Hall.
  destruct (fibonacci_agrees_sound n) as (v & Hv & Hz).
  { apply Hall, in_seq. lia. }
  exists v. split; [|exact Hz].
  eapply (fuel_monotone_le _ (fibonacci_monotone _)); eassumption.
Qed.

Lemma fibonacci_standard_to_78_witness :
  exists v, fibonacci (of_Z (Z.of_nat 10)) 12 = Some v /\ represents v (Fib 10).
Proof. apply (fibonacci_standard_to_78 10 12); lia. Defined.

(** C10 fails as stated: F(79) = 14472334024676221 is odd and above 2^53,
    so the last addition rounds; [fibonacci(79)] returns
    14472334024676220, and no amount of fuel makes it return F(79). *)
Lemma fibonacci_79_rounds :
  (exists v, fibonacci (of_Z 79) 79 = Some v /\ represents v 14472334024676220)
  /\ Fib 79 = 14472334024676221
  /\ ~ fibonacci_at 79 (Fib 79).
Proof.
  split; [|split].
  - eexists. split; vm_compute; reflexivity.
  - vm_compute. reflexivity.
  - intros H.
    assert (Fib 79 = 14472334024676220) as E.
    { eapply (fibonacci_at_unique 79 79); [| |exact H]; vm_compute; reflexivity. }
    vm_compute in E. discriminate.
Qed.

(** C6 (as amended).  For every nesting depth d up to 77, the width
    function returns 0 when d = 0 and exactly F(d+1) * 2 otherwise. *)
Theorem width_is_scaled_fibonacci_to_77 (d fuel : nat) :
  (d <= 77)%nat -> (d < fuel)%nat ->
  exists v, getFibonacciSpacesForDepth (of_Z (Z.of_nat d)) fuel = Some v
            /\ represents v (match d with O => 0 | S _ => Fib (d + 1) * 2 end).
Proof.
  intros Hd Hfuel.
  pose proof width_agrees_to_77 as Hall.
  rewrite forallb_forall in Hall.
  destruct (width_agrees_sound spec_width d) as (v & Hv & Hz).
  { apply Hall, in_seq. lia. }
  exists v. split; [|exact Hz].
  eapply (fuel_monotone_le _ (getFibonacciSpacesForDepth_monotone _)); [|exact Hv]. lia.
Qed.

Lemma width_is_scaled_fibonacci_to_77_witness :
  exists v, getFibonacciSpacesForDepth (of_Z (Z.of_nat 4)) 5 = Some v
            /\ represents v (Fib (4 + 1) * 2).
Proof. apply (width_is_scaled_fibonacci_to_77 4 5); lia. Defined.

(** C6 fails as stated at depth 78: F(79) is not a number, the width
    returned is 28944668049352440 and not F(79) * 2 = 28944668049352442. *)
Lemma width_78_rounds :
  (exists v, getFibonacciSpacesForDepth (of_Z 78) 79 = Some v
             /\ represents v 28944668049352440)
  /\ Fib (78 + 1) * 2 = 28944668049352442
  /\ ~ width_at 78 (Fib (78 + 1) * 2).
Proof.
  split; [|split].
  - eexists. split; vm_compute; reflexivity.
  - vm_compute. reflexivity.
  - intros H.
    assert (Fib (78 + 1) * 2 = 28944668049352440) as E.
    { eapply (width_at_unique 78 79); [| |exact H]; vm_compute; reflexivity. }
    vm_compute in E. discriminate.
Qed.

(** C1 (as amended).  The width function maps depth 0 to 0 spaces, depth
    1 to 2, depth 2 to 4, depth 3 to 6, depth 4 to 10 and depth 5 to 16. *)
Theorem width_table :
  width_at 0 0 /\ width_at 1 2 /\ width_at 2 4 /\ width_at 3 6
  /\ width_at 4 10 /\ width_at 5 16.
Proof.
  repeat split;
    (eexists; split; [exists 6%nat; vm_compute; reflexivity | vm_compute; reflexivity]).
Qed.

(** C1 fails as stated: at depth 2 the width function returns 4, not the
    2 of the specification's table (and 6, 10, 16 at depths 3, 4, 5). *)
Lemma width_table_of_spec_fails :
  ~ (width_at 0 0 /\ width_at 1 2 /\ width_at 2 2 /\ width_at 3 4
     /\ width_at 4 6 /\ width_at 5 10).
Proof.
  intros (_ & _ & H2 & _).
  assert (2 = 4) as E.
  { eapply (width_at_unique 2 3); [| |exact H2]; vm_compute; reflexivity. }
  discriminate.
Qed.

End FibonacciFacts.

(** ** Leading white space and content *)

Module TextFacts.
Import Host AlignSpec.
Local Open Scope Z_scope.

Lemma text_length_nonneg (text : Text) : 0 <= text_length text.
Proof. unfold text_length. lia. Qed.

Lemma text_length_app (s t : Text) : text_length (s ++ t) = text_length s + text_length t.
Proof. unfold text_length. rewrite length_app. lia. Qed.

Lemma text_length_repeat_space (n : Z) : text_length (repeat_space n) = Z.max 0 n.
Proof. unfold text_length, repeat_space. rewrite length_replicate. lia. Qed.

Lemma leading_content (text : Text) : leadingWhitespace text ++ content text = text.
Proof.
  unfold content. induction text as [|c rest IH]; [reflexivity|].
  simpl. destruct (isWhiteSpace c); simpl; [f_equal; exact IH|reflexivity].
Qed.

Lemma leadingLength_nonneg (text : Text) : 0 <= leadingLength text.
Proof. apply text_length_nonneg. Qed.

Lemma contentLength_content (text : Text) : contentLength text = text_length (content text).
Proof.
  unfold contentLength, leadingLength.
  rewrite <- (leading_content text) at 1. rewrite text_length_app. lia.
Qed.

Lemma contentLength_nonneg (text : Text) : 0 <= contentLength text.
Proof. rewrite contentLength_content. apply text_length_nonneg. Qed.

(** The content of a line does not start with white space. *)
Lemma leadingWhitespace_content (text : Text) : leadingWhitespace (content text) = [].
Proof.
  unfold content. induction text as [|c rest IH]; [reflexivity|].
  simpl. destruct (isWhiteSpace c) eqn:E; simpl; [exact IH|].
  rewrite E. reflexivity.
Qed.

Lemma leadingWhitespace_spaces (n : nat) (text : Text) :
  leadingWhitespace (replicate n SPACE ++ text) = replicate n SPACE ++ leadingWhitespace text.
Proof. induction n as [|n IH]; [reflexivity|]. simpl. f_equal. exact IH. Qed.

(** A line rebuilt from [w] spaces and the content of a line has leading
    width [w] and the same content. *)
Lemma leadingWhitespace_repad (w : Z) (text : Text) :
  leadingWhitespace (repeat_space w ++ content text) = repeat_space w.
Proof.
  unfold repeat_space. rewrite leadingWhitespace_spaces, leadingWhitespace_content.
  apply app_nil_r.
Qed.

Lemma leadingLength_repad (w : Z) (text : Text) :
  leadingLength (repeat_space w ++ content text) = Z.max 0 w.
Proof. unfold leadingLength. rewrite leadingWhitespace_repad. apply text_length_repeat_space. Qed.

Lemma content_repad (w : Z) (text : Text) :
  content (repeat_space w ++ content text) = content text.
Proof.
  unfold content at 1. rewrite leadingWhitespace_repad.
  rewrite drop_app_length. reflexivity.
Qed.

Lemma contentLength_repad (w : Z) (text : Text) :
  contentLength (repeat_space w ++ content text) = contentLength text.
Proof. rewrite !contentLength_content, content_repad. reflexivity. Qed.

Lemma drop_leading (text : Text) :
  drop (Z.to_nat (leadingLength text)) text = content text.
Proof. unfold content, leadingLength, text_length. rewrite Nat2Z.id. reflexivity. Qed.

(** The maximum content length bounds every line and, in a document with
    a line, is the content length of one of them. *)
Lemma maxContentLength_nonneg (d : Doc) : 0 <= maxContentLength d.
Proof. induction d as [|t d IH]; simpl; lia. Qed.

Lemma maxContentLength_upper (d : Doc) (text : Text) :
  text ∈ d -> contentLength text <= maxContentLength d.
Proof.
  induction d as [|t d IH]; intros Hin; [inversion Hin|].
  apply elem_of_cons in Hin as [->|Hin]; simpl; [lia|].
  specialize (IH Hin). lia.
Qed.

Lemma maxContentLength_attained (d : Doc) :
  d <> [] -> exists text, text ∈ d /\ contentLength text = maxContentLength d.
Proof.
  induction d as [|t d IH]; [congruence|]. intros _.
  destruct d as [|t' d'].
  - exists t. split; [left|]. simpl. pose proof (contentLength_nonneg t). lia.
  - destruct IH as (x & Hx & Ex); [congruence|].
    destruct (Z.le_ge_cases (contentLength t) (maxContentLength (t' :: d'))) as [Hle|Hge].
    + exists x. split; [right; exact Hx|].
      change (maxContentLength (t :: t' :: d'))
        with (Z.max (contentLength t) (maxContentLength (t' :: d'))). lia.
    + exists t. split; [left|].
      change (maxContentLength (t :: t' :: d'))
        with (Z.max (contentLength t) (maxContentLength (t' :: d'))). lia.
Qed.

Lemma desiredWidth_exact (d : Doc) (text : Text) :
  text ∈ d -> desiredWidth d text = maxContentLength d - contentLength text.
Proof.
  intros Hin. unfold desiredWidth.
  pose proof (maxContentLength_upper d text Hin). lia.
Qed.

End TextFacts.

(** ** Batches that touch each line on its own *)

Module BatchFacts.
Import Host AlignSpec TextFacts.
Local Open Scope Z_scope.

Lemma spliceAt_lookup (i : nat) (a b : Z) (new text : Text) (d : Doc) :
  d !! i = Some text ->
  spliceAt (Z.of_nat i) a b new d = <[i := spliceLine a b new text]> d.
Proof.
  intros Hi. unfold spliceAt.
  destruct (Z.ltb_spec (Z.of_nat i) 0) as [?|_]; [lia|].
  rewrite Nat2Z.id. revert i Hi.
  induction d as [|t d IH]; intros [|i] Hi; try discriminate; simpl in *.
  - congruence.
  - f_equal. apply IH, Hi.
Qed.

Lemma applyOps_collect (mk : Z -> Text -> list EditOp) (f : Text -> Text) :
  lineEdit mk f ->
  forall (lines pre : Doc),
    applyOps (collect mk lines (Z.of_nat (length pre))) (pre ++ lines)
    = pre ++ map f lines.
Proof.
  intros Hmk lines. unfold applyOps.
  induction lines as [|t rest IH]; intros pre; [reflexivity|].
  cbn [collect map]. rewrite foldl_app.
  rewrite (Hmk (length pre) t (pre ++ t :: rest)).
  2:{ apply list_lookup_middle. reflexivity. }
  replace (<[length pre := f t]> (pre ++ t :: rest)) with ((pre ++ [f t]) ++ rest).
  2:{ rewrite insert_app_r_alt by lia. rewrite Nat.sub_diag. simpl.
      rewrite <- app_assoc. reflexivity. }
  replace (Z.of_nat (length pre) + 1) with (Z.of_nat (length (pre ++ [f t]))).
  2:{ rewrite length_app. simpl. lia. }
  rewrite IH, <- app_assoc. reflexivity.
Qed.

Lemma applyOps_collect_doc (mk : Z -> Text -> list EditOp) (f : Text -> Text) (d : Doc) :
  lineEdit mk f -> applyOps (collect mk d 0) d = map f d.
Proof. intros Hmk. exact (applyOps_collect mk f Hmk d []). Qed.

(** When no line contributes an operation the batch is empty. *)
Lemma collect_nil {A : Type} (mk : Z -> Text -> list A) (lines : Doc) (i : Z) :
  (forall j text, text ∈ lines -> mk j text = []) -> collect mk lines i = [].
Proof.
  revert i. induction lines as [|t rest IH]; intros i H; [reflexivity|].
  simpl. rewrite (H i t) by left. apply IH.
  intros j x Hx. apply H. right. exact Hx.
Qed.

Lemma collect_map {A B : Type} (g : A -> B) (mk : Z -> Text -> list A) (lines : Doc) (i : Z) :
  map g (collect mk lines i) = collect (fun j text => map g (mk j text)) lines i.
Proof.
  revert i. induction lines as [|t rest IH]; intros i; [reflexivity|].
  simpl. rewrite map_app, IH. reflexivity.
Qed.

Lemma collect_ext {A : Type} (mk mk' : Z -> Text -> list A) (lines : Doc) (i : Z) :
  (forall j text, text ∈ lines -> mk j text = mk' j text) ->
  collect mk lines i = collect mk' lines i.
Proof.
  revert i. induction lines as [|t rest IH]; intros i H; [reflexivity|].
  simpl. rewrite (H i t) by left. f_equal. apply IH.
  intros j x Hx. apply H. right. exact Hx.
Qed.

Lemma realign_lineEdit (m : Z) : lineEdit (realignOps m) (realign m).
Proof.
  intros i text d Hi. unfold realignOps, realign.
  destruct (leadingLength text =? Z.max 0 (m - contentLength text)).
  - simpl. symmetry. apply list_insert_id, Hi.
  - simpl. rewrite Z.eqb_refl.
    rewrite (spliceAt_lookup i _ _ _ text d Hi).
    unfold spliceLine. simpl. rewrite drop_leading. reflexivity.
Qed.

Lemma leadingLength_realign (m : Z) (text : Text) :
  leadingLength (realign m text) = Z.max 0 (m - contentLength text).
Proof.
  unfold realign.
  destruct (Z.eqb_spec (leadingLength text) (Z.max 0 (m - contentLength text))) as [E|_].
  - exact E.
  - rewrite leadingLength_repad. lia.
Qed.

Lemma contentLength_realign (m : Z) (text : Text) :
  contentLength (realign m text) = contentLength text.
Proof.
  unfold realign.
  destruct (leadingLength text =? Z.max 0 (m - contentLength text)); [reflexivity|].
  apply contentLength_repad.
Qed.

Lemma content_realign (m : Z) (text : Text) : content (realign m text) = content text.
Proof.
  unfold realign.
  destruct (leadingLength text =? Z.max 0 (m - contentLength text)); [reflexivity|].
  apply content_repad.
Qed.

Lemma text_length_realign (m : Z) (text : Text) :
  text_length (realign m text) = Z.max 0 (m - contentLength text) + contentLength text.
Proof.
  pose proof (leadingLength_realign m text) as H1.
  pose proof (contentLength_realign m text) as H2.
  unfold contentLength in H2 at 1. lia.
Qed.

Lemma maxContentLength_realign (m : Z) (d : Doc) :
  maxContentLength (map (realign m) d) = maxContentLength d.
Proof.
  induction d as [|t d IH]; [reflexivity|].
  simpl. rewrite contentLength_realign, IH. reflexivity.
Qed.

(** A second look at a right-aligned document finds nothing to issue. *)
Lemma realignOps_realigned (d : Doc) (j : Z) (text : Text) :
  text ∈ map (realign (maxContentLength d)) d ->
  realignOps (maxContentLength (map (realign (maxContentLength d)) d)) j text = [].
Proof.
  intros Hin. apply list_elem_of_fmap in Hin as (t & -> & Ht).
  unfold realignOps.
  rewrite maxContentLength_realign, leadingLength_realign, contentLength_realign.
  rewrite Z.eqb_refl. reflexivity.
Qed.

End BatchFacts.

(** ** The caret-preserving pass: what its loops compute *)

Module CaretAlignFacts.
Import Host AlignSpec TextFacts BatchFacts CaretAlign.
Local Open Scope Z_scope.

Lemma caret_measureLoop_spec (lines : Doc) (contents : list Z) (m : Z) :
  0 <= m ->
  measureLoop lines contents m
  = (contents ++ map contentLength lines, Z.max m (maxContentLength lines)).
Proof.
  revert contents m. induction lines as [|t rest IH]; intros contents m Hm.
  - simpl. rewrite app_nil_r. f_equal. lia.
  - cbn [measureLoop]. fold (contentLength t).
    rewrite IH by (destruct (Z.gtb_spec (contentLength t) m); lia).
    cbn [map]. rewrite <- app_assoc. f_equal.
    change (maxContentLength (t :: rest))
      with (Z.max (contentLength t) (maxContentLength rest)).
    destruct (Z.gtb_spec (contentLength t) m); lia.
Qed.

Lemma planLoop_spec (lines pre : Doc) (contents : list Z) (m : Z) (p : Plan) :
  contents = map contentLength (pre ++ lines) ->
  let p' := planLoop lines (Z.of_nat (length pre)) contents m p in
  map toOp (edits p')
  = map toOp (edits p) ++ collect (realignOps m) lines (Z.of_nat (length pre))
  /\ (forall (j : nat) (text : Text), lines !! j = Some text ->
        desiredLeadingByLine p' !! Z.of_nat (length pre + j)
        = Some (Z.max 0 (m - contentLength text)))
  /\ (forall k : Z, k < Z.of_nat (length pre) ->
        desiredLeadingByLine p' !! k = desiredLeadingByLine p !! k).
Proof.
  revert pre p. induction lines as [|t rest IH]; intros pre p Hc; cbn zeta.
  - simpl. rewrite app_nil_r. split; [reflexivity|]. split; [|reflexivity].
    intros j text Hj. discriminate.
  - cbn [planLoop collect].
    assert (default 0 (contents !! Z.to_nat (Z.of_nat (length pre))) = contentLength t) as ->.
    { rewrite Nat2Z.id, Hc, map_app. 
      rewrite lookup_app_r; rewrite length_map; [|lia].
      rewrite Nat.sub_diag. reflexivity. }
    set (w := Z.max 0 (m - contentLength t)).
    match goal with |- context [planLoop rest _ contents m ?q] => set (p1 := q) end.
    assert (Hc' : contents = map contentLength ((pre ++ [t]) ++ rest)).
    { rewrite <- app_assoc. exact Hc. }
    destruct (IH (pre ++ [t]) p1 Hc') as (He & Hd & Hk).
    assert (Hlen : Z.of_nat (length (pre ++ [t])) = Z.of_nat (length pre) + 1).
    { rewrite length_app. simpl. lia. }
    rewrite Hlen in He, Hd, Hk.
    assert (Hp1 : desiredLeadingByLine p1 = <[Z.of_nat (length pre) := w]> (desiredLeadingByLine p)).
    { unfold p1. destruct (leadingLength t =? w); reflexivity. }
    split; [|split].
    + rewrite He. unfold p1, realignOps. fold w.
      destruct (leadingLength t =? w); simpl.
      * reflexivity.
      * rewrite map_app, <- app_assoc. reflexivity.
    + intros [|j] text Hj; simpl in Hj.
      * injection Hj as <-. rewrite Nat.add_0_r.
        rewrite Hk by lia. rewrite Hp1. apply lookup_insert_eq.
      * specialize (Hd j text Hj).
        replace (Z.of_nat (length pre + S j)) with (Z.of_nat (length (pre ++ [t]) + j)).
        { exact Hd. }
        rewrite length_app. simpl. lia.
    + intros k Hlt. rewrite Hk by lia. rewrite Hp1.
      apply lookup_insert_ne. lia.
Qed.

(** The plan of a pass over a document: the maximum, the batch and the
    table of desired widths. *)
Lemma computePlan_spec (d : Doc) :
  snd (computePlan d) = maxContentLength d
  /\ map toOp (edits (fst (computePlan d))) = collect (realignOps (maxContentLength d)) d 0
  /\ (forall (i : nat) (text : Text), d !! i = Some text ->
        desiredLeadingByLine (fst (computePlan d)) !! Z.of_nat i
        = Some (desiredWidth d text)).
Proof.
  unfold computePlan. rewrite caret_measureLoop_spec by lia. cbn [fst snd app].
  pose proof (maxContentLength_nonneg d) as Hm.
  rewrite Z.max_r by exact Hm.
  destruct (planLoop_spec d [] (map contentLength d) (maxContentLength d) emptyPlan eq_refl)
    as (He & Hd & _).
  split; [reflexivity|]. split; [exact He|].
  intros i text Hi. exact (Hd i text Hi).
Qed.

Lemma validPosition_lineAt (d : Doc) (p : Position) :
  validPosition d p -> exists text, lineAt d (line p) = Some text /\ lineText d (line p) = text.
Proof.
  intros [H0 Hlt]. unfold lineText, lineAt.
  destruct (Z.ltb_spec (line p) 0) as [?|_]; [lia|].
  destruct (lookup_lt_is_Some_2 d (Z.to_nat (line p))) as [text Ht]; [lia|].
  exists text. rewrite Ht. split; reflexivity.
Qed.

Lemma captureOffsets_valid (d : Doc) (sels : list Selection) (acc : list Offsets) :
  Forall (validSelection d) sels ->
  captureOffsets d sels acc = Ok (acc ++ map (offsetsOf d) sels).
Proof.
  intros Hv. revert acc. induction Hv as [|s rest [Hs He] _ IH]; intros acc.
  - simpl. rewrite app_nil_r. reflexivity.
  - cbn [captureOffsets map].
    destruct (validPosition_lineAt d _ Hs) as (ts & Hts & Hts').
    destruct (validPosition_lineAt d _ He) as (te & Hte & Hte').
    rewrite Hts, Hte, IH, <- app_assoc. unfold offsetsOf, contentOffset.
    rewrite Hts', Hte'. reflexivity.
Qed.

Lemma restoreLoop_valid (old new : Doc) (desired : gmap Z Z)
    (sels : list Selection) (seen : list Selection) (acc : list Selection) :
  Forall (validSelection new) sels ->
  restoreLoop new desired (map (offsetsOf old) (seen ++ sels)) sels (length seen) acc
  = Ok (acc ++ map (movedSelection old new desired) sels).
Proof.
  intros Hv. revert seen acc. induction Hv as [|s rest [Hs He] _ IH]; intros seen acc.
  - simpl. rewrite app_nil_r. reflexivity.
  - cbn [restoreLoop map].
    assert (map (offsetsOf old) (seen ++ s :: rest) !! length seen = Some (offsetsOf old s)) as ->.
    { rewrite list_lookup_fmap, list_lookup_middle by reflexivity. reflexivity. }
    destruct (validPosition_lineAt new _ Hs) as (ts & Hts & Hts').
    destruct (validPosition_lineAt new _ He) as (te & Hte & Hte').
    rewrite Hts, Hte.
    replace (S (length seen)) with (length (seen ++ [s])) by (rewrite length_app; simpl; lia).
    replace (seen ++ s :: rest) with ((seen ++ [s]) ++ rest) by (rewrite <- app_assoc; reflexivity).
    rewrite IH, <- app_assoc. unfold movedSelection, movedCaret.
    rewrite Hts', Hte'. reflexivity.
Qed.

(** The batch of a pass applied by the editor. *)
Lemma applyOps_plan (d : Doc) :
  applyOps (map toOp (edits (fst (computePlan d)))) d = map (realign (maxContentLength d)) d.
Proof.
  destruct (computePlan_spec d) as (_ & He & _). rewrite He.
  apply applyOps_collect_doc, realign_lineEdit.
Qed.

Lemma validSelection_realigned (m : Z) (d : Doc) (sels : list Selection) :
  Forall (validSelection d) sels -> Forall (validSelection (map (realign m) d)) sels.
Proof.
  intros Hv. eapply Forall_impl; [exact Hv|].
  intros s. unfold validSelection, validPosition.
  rewrite length_map. auto.
Qed.

(** The [try] block on a host that applies the batch: either nothing to
    do, or the document is right-aligned and the selections are rebuilt. *)
Lemma caret_tryBody_ideal (track : Editor -> list EditOp -> list Selection)
    (uri : string) (e : Ext) (d : Doc) (sels : list Selection) :
  Forall (validSelection d) sels ->
  let m := maxContentLength d in
  let plan := fst (computePlan d) in
  let d' := map (realign m) d in
  tryBody (idealHost track) uri (e, mkEditor d sels)
  = if Nat.eqb (length (edits plan)) 0
    then ((appendLine ("No padding edits required for " +:+ uri +:+ " (max "
                       +:+ pretty m +:+ ")") (set_lastMax uri m e),
           mkEditor d sels), Ok tt)
    else ((appendLine ("Applied " +:+ pretty (Z.of_nat (length (edits plan)))
                       +:+ " padding edits with cursor preservation to align to "
                       +:+ pretty m +:+ " for " +:+ uri)
                      (set_lastMax uri m (set_isApplyingEdits true e)),
           mkEditor d' (map (movedSelection d d' (desiredLeadingByLine plan)) sels)),
          Ok tt).
Proof.
  intros Hv m plan d'.
  pose proof (computePlan_spec d) as (Hm & _ & _).
  pose proof (applyOps_plan d) as Happ.
  unfold tryBody, bind, getEditor. cbn [fst snd document selections].
  fold plan in Happ. fold m in Hm, Happ. fold d' in Happ.
  destruct (computePlan d) as [plan0 m0] eqn:E. cbn [fst snd] in *.
  subst plan m0.
  destruct (Nat.eqb (length (edits plan0)) 0) eqn:El.
  - reflexivity.
  - unfold lift. rewrite (captureOffsets_valid d sels [] Hv). cbn [app].
    unfold modifyExt, awaitEdit. cbn [fst snd idealHost edit changeEventWhileBusy].
    cbn [onDidChangeTextDocument set_isApplyingEdits isApplyingEdits document selections].
    rewrite Happ.
    pose proof (restoreLoop_valid d d' (desiredLeadingByLine plan0) sels [] []
                  (validSelection_realigned m d sels Hv)) as Hr.
    cbn [app length] in Hr. rewrite Hr.
    reflexivity.
Qed.

End CaretAlignFacts.

(** ** The rerun-aware pass: what its loops compute *)

Module RerunAlignFacts.
Import Host AlignSpec TextFacts BatchFacts RerunAlign.
Local Open Scope Z_scope.

Lemma rerun_measureLoop_spec (lines : Doc) (lineContents : list LineContent) (m : Z) :
  0 <= m ->
  measureLoop lines lineContents m
  = (lineContents ++ map lineContentOf lines, Z.max m (maxContentLength lines)).
Proof.
  revert lineContents m. induction lines as [|t rest IH]; intros lcs m Hm.
  - simpl. rewrite app_nil_r. f_equal. lia.
  - cbn [measureLoop]. fold (contentLength t).
    rewrite IH by (destruct (Z.gtb_spec (contentLength t) m); lia).
    cbn [map]. rewrite <- app_assoc. f_equal.
    change (maxContentLength (t :: rest))
      with (Z.max (contentLength t) (maxContentLength rest)).
    destruct (Z.gtb_spec (contentLength t) m); lia.
Qed.

Lemma editLoop_spec (lines pre : Doc) (m : Z) (acc : list RangeEdit) :
  editLoop (length lines) (Z.of_nat (length pre)) (map lineContentOf (pre ++ lines)) m acc
  = Ok (acc ++ collect (rangeEdits m) lines (Z.of_nat (length pre))).
Proof.
  revert pre acc. induction lines as [|t rest IH]; intros pre acc.
  - simpl. rewrite app_nil_r. reflexivity.
  - cbn [length editLoop collect].
    rewrite Nat2Z.id, list_lookup_fmap, list_lookup_middle by reflexivity.
    cbn [fmap option_fmap option_map lineContentOf leading contentLen].
    fold (contentLength t).
    replace (pre ++ t :: rest) with ((pre ++ [t]) ++ rest) by (rewrite <- app_assoc; reflexivity).
    replace (Z.of_nat (length pre) + 1) with (Z.of_nat (length (pre ++ [t])))
      by (rewrite length_app; simpl; lia).
    rewrite IH. unfold rangeEdits at 2.
    destruct (leadingLength t =? Z.max 0 (m - contentLength t)).
    + reflexivity.
    + rewrite <- app_assoc. reflexivity.
Qed.

(** The two loops never throw, and yield the right-alignment batch. *)
Lemma computeEdits_spec (d : Doc) :
  computeEdits d = Ok (collect (rangeEdits (maxContentLength d)) d 0).
Proof.
  unfold computeEdits. rewrite rerun_measureLoop_spec by lia. cbn [app].
  rewrite Z.max_r by apply maxContentLength_nonneg.
  exact (editLoop_spec d [] (maxContentLength d) []).
Qed.

Lemma toOp_rangeEdits (m : Z) (lines : Doc) (i : Z) :
  map toOp (collect (rangeEdits m) lines i) = collect (realignOps m) lines i.
Proof.
  rewrite collect_map. apply collect_ext. intros j text _.
  unfold rangeEdits, realignOps.
  destruct (leadingLength text =? Z.max 0 (m - contentLength text)); reflexivity.
Qed.

(** The [try] block on a host that applies the batch. *)
Lemma rerun_tryBody_ideal (track : Editor -> list EditOp -> list Selection)
    (uri : string) (e : Ext) (ed : Editor) :
  let d := document ed in
  let ops := collect (realignOps (maxContentLength d)) d 0 in
  tryBody (idealHost track) uri (e, ed)
  = if Nat.eqb (length ops) 0
    then ((set_isApplyingEdits false (set_isApplyingEdits true e), ed), Ok tt)
    else ((set_needsRerun true (set_isApplyingEdits true e),
           mkEditor (map (realign (maxContentLength d)) d) (track ed ops)), Ok tt).
Proof.
  intros d ops. unfold tryBody, bind, modifyExt, getEditor, lift.
  cbn [fst snd]. fold d. rewrite computeEdits_spec.
  rewrite <- (length_map toOp), toOp_rangeEdits. fold ops.
  destruct (Nat.eqb (length ops) 0); [reflexivity|].
  unfold awaitEdit, ret.
  cbn [idealHost edit changeEventWhileBusy onDidChangeTextDocument
       set_isApplyingEdits isApplyingEdits].
  fold d. unfold ops at 1.
  rewrite (applyOps_collect_doc _ _ d (realign_lineEdit (maxContentLength d))).
  reflexivity.
Qed.

End RerunAlignFacts.

(** ** Right alignment: the desired widths, the aligned document, the carets *)

Module RightAlignment.
Import Host AlignSpec TextFacts BatchFacts.
Local Open Scope Z_scope.

Lemma elem_of_collect {A : Type} (mk : Z -> Text -> list A) (lines : Doc) (i : Z) (x : A) :
  x ∈ collect mk lines i
  <-> exists (j : nat) (text : Text), lines !! j = Some text /\ x ∈ mk (i + Z.of_nat j) text.
Proof.
  revert i. induction lines as [|t rest IH]; intros i; cbn [collect].
  - split; [intros H; inversion H|intros (j & text & Hj & _); discriminate].
  - rewrite elem_of_app, IH. split.
    + intros [H|(j & text & Hj & Hx)].
      * exists 0%nat, t. split; [reflexivity|]. rewrite Z.add_0_r. exact H.
      * exists (S j), text. split; [exact Hj|].
        replace (i + Z.of_nat (S j)) with (i + 1 + Z.of_nat j) by lia. exact Hx.
    + intros ([|j] & text & Hj & Hx); simpl in Hj.
      * injection Hj as <-. left. rewrite Z.add_0_r in Hx. exact Hx.
      * right. exists j, text. split; [exact Hj|].
        replace (i + 1 + Z.of_nat j) with (i + Z.of_nat (S j)) by lia. exact Hx.
Qed.

(** A line away from its desired width makes the batch non-empty. *)
Lemma batch_nonempty (d : Doc) (text : Text) :
  text ∈ d -> leadingLength text <> desiredWidth d text ->
  Nat.eqb (length (collect (realignOps (maxContentLength d)) d 0)) 0 = false.
Proof.
  intros Hin Hne.
  apply list_elem_of_lookup in Hin as [j Hj].
  assert (replacePrefix (Z.of_nat j) text (desiredWidth d text)
          ∈ collect (realignOps (maxContentLength d)) d 0) as Hop.
  { apply elem_of_collect. exists j, text. split; [exact Hj|].
    unfold realignOps. fold (desiredWidth d text).
    destruct (Z.eqb_spec (leadingLength text) (desiredWidth d text)); [contradiction|].
    simpl. left. }
  destruct (collect (realignOps (maxContentLength d)) d 0); [inversion Hop|reflexivity].
Qed.

(** The document a pass leaves on a host that applies its batch. *)
Lemma caret_pass_document (track : Editor -> list EditOp -> list Selection)
    (uri : string) (e : Ext) (d : Doc) (sels : list Selection) :
  Forall (validSelection d) sels ->
  documentAfter (CaretAlign.runAlignment (idealHost track) uri (shown d sels) e)
  = map (realign (maxContentLength d)) d.
Proof.
  intros Hv. unfold CaretAlign.runAlignment, shown, tryCatchFinally.
  cbn [isClosed editor].
  rewrite (CaretAlignFacts.caret_tryBody_ideal track uri _ d sels Hv).
  destruct (Nat.eqb (length (CaretAlign.edits (fst (CaretAlign.computePlan d)))) 0) eqn:El.
  - cbn. rewrite <- CaretAlignFacts.applyOps_plan.
    apply Nat.eqb_eq, nil_length_inv in El. rewrite El. reflexivity.
  - reflexivity.
Qed.

Lemma rerun_pass_document (track : Editor -> list EditOp -> list Selection)
    (uri : string) (e : Ext) (d : Doc) (sels : list Selection) :
  documentAfter (RerunAlign.runAlignment (idealHost track) uri (shown d sels) e)
  = map (realign (maxContentLength d)) d.
Proof.
  unfold RerunAlign.runAlignment, shown, tryCatchFinally.
  cbn [isClosed editor].
  rewrite RerunAlignFacts.rerun_tryBody_ideal. cbn [document].
  destruct (Nat.eqb (length (collect (realignOps (maxContentLength d)) d 0)) 0) eqn:El.
  - cbn. rewrite <- (applyOps_collect_doc _ _ d (realign_lineEdit (maxContentLength d))).
    apply Nat.eqb_eq, nil_length_inv in El. rewrite El. reflexivity.
  - reflexivity.
Qed.

(** C2.  In right-alignment mode the desired leading width of every line
    is the maximum content length over all lines minus the content
    length of the line (its length minus its leading width), floored at
    0: this is the entry the caret-preserving pass stores for the line,
    and the only edit the rerun-aware pass can issue for the line
    replaces its leading white space by that many spaces, exactly when
    the line is not at that width already. *)
Theorem desired_width_is_max_minus_content (d : Doc) (i : nat) (text : Text) :
  d !! i = Some text ->
  let w := Z.max 0 (maxContentLength d - (text_length text - leadingLength text)) in
  CaretAlign.desiredLeadingByLine (fst (CaretAlign.computePlan d)) !! Z.of_nat i = Some w
  /\ exists edits,
       RerunAlign.computeEdits d = Ok edits
       /\ forall e,
            (e ∈ edits /\ line (range_start (RerunAlign.range e)) = Z.of_nat i)
            <-> (leadingLength text <> w
                 /\ e = RerunAlign.mkRangeEdit
                          (mkRange (mkPosition (Z.of_nat i) 0)
                                   (mkPosition (Z.of_nat i) (leadingLength text)))
                          (repeat_space w)).
Proof.
  intros Hi w.
  fold (contentLength text) in w. fold (desiredWidth d text) in w.
  split.
  - destruct (CaretAlignFacts.computePlan_spec d) as (_ & _ & Hd). exact (Hd i text Hi).
  - eexists. split; [apply RerunAlignFacts.computeEdits_spec|].
    intros e. rewrite elem_of_collect. split.
    + intros [(j & t & Hj & He) Hline].
      unfold rangeEdits in He.
      destruct (Z.eqb_spec (leadingLength t) (Z.max 0 (maxContentLength d - contentLength t)))
        as [|Hne]; [inversion He|].
      apply list_elem_of_singleton in He. subst e. cbn in Hline.
      assert (j = i) as -> by lia.
      assert (t = text) as -> by congruence.
      split; [exact Hne|reflexivity].
    + intros [Hne ->]. split; [|reflexivity].
      exists i, text. split; [exact Hi|].
      unfold rangeEdits. fold (desiredWidth d text). fold w.
      destruct (Z.eqb_spec (leadingLength text) w); [contradiction|].
      cbn. left.
Qed.

Lemma desired_width_is_max_minus_content_witness :
  CaretAlign.desiredLeadingByLine
    (fst (CaretAlign.computePlan [text_of_string "a"; text_of_string "  bb"; text_of_string "ccc"]))
    !! Z.of_nat 1 = Some 1.
Proof.
  apply (desired_width_is_max_minus_content
           [text_of_string "a"; text_of_string "  bb"; text_of_string "ccc"] 1
           (text_of_string "  bb")).
  reflexivity.
Defined.

(** What the caret-preserving pass makes of the selections when it has
    a batch to apply. *)
Lemma caret_pass_selections (track : Editor -> list EditOp -> list Selection)
    (uri : string) (e : Ext) (d : Doc) (sels : list Selection) :
  Forall (validSelection d) sels ->
  (exists text, text ∈ d /\ leadingLength text <> desiredWidth d text) ->
  selectionsAfter (CaretAlign.runAlignment (idealHost track) uri (shown d sels) e)
  = map (movedSelection d (map (realign (maxContentLength d)) d)
           (CaretAlign.desiredLeadingByLine (fst (CaretAlign.computePlan d)))) sels.
Proof.
  intros Hv (text & Hin & Hne).
  unfold CaretAlign.runAlignment, shown, tryCatchFinally.
  cbn [isClosed editor].
  rewrite (CaretAlignFacts.caret_tryBody_ideal track uri _ d sels Hv).
  pose proof (batch_nonempty d text Hin Hne) as Hb.
  destruct (CaretAlignFacts.computePlan_spec d) as (_ & He & _).
  rewrite <- He, length_map in Hb. rewrite Hb. reflexivity.
Qed.

Lemma movedCaret_rule (d : Doc) (p : Position) :
  validPosition d p ->
  caretRule d (map (realign (maxContentLength d)) d) p
    (movedCaret d (map (realign (maxContentLength d)) d)
       (CaretAlign.desiredLeadingByLine (fst (CaretAlign.computePlan d))) p).
Proof.
  intros Hp. split; [reflexivity|].
  destruct (CaretAlignFacts.validPosition_lineAt d p Hp) as (oldText & Ho & Ho').
  assert (Hlook : d !! Z.to_nat (line p) = Some oldText).
  { unfold lineAt in Ho. destruct (line p <? 0); [discriminate|exact Ho]. }
  assert (Hnew : lineAt (map (realign (maxContentLength d)) d) (line p)
                 = Some (realign (maxContentLength d) oldText)).
  { unfold lineAt in *. destruct (line p <? 0); [discriminate|].
    rewrite list_lookup_fmap, Hlook. reflexivity. }
  exists oldText, (realign (maxContentLength d) oldText).
  split; [exact Ho|]. split; [exact Hnew|]. split.
  - apply leadingLength_realign.
  - unfold movedCaret. cbn [character].
    unfold lineText at 2. rewrite Hnew, Ho'. cbn [default].
    destruct (CaretAlignFacts.computePlan_spec d) as (_ & _ & Hd).
    specialize (Hd _ _ Hlook). destruct Hp as [Hp0 _].
    rewrite Z2Nat.id in Hd by exact Hp0. rewrite Hd. cbn [default].
    unfold desiredWidth, contentOffset, id. lia.
Qed.

(** C3.  When the caret-preserving pass rewrites leading white space,
    every endpoint of every selection, with content offset k (its
    column minus the old leading width of its line, floored at 0), is
    set on its line, whose leading width is now the desired width w_new,
    at column min(w_new + k, newLineLength), newLineLength being the
    length of that line after the rewrite. *)
Theorem caret_column_after_rewrite (track : Editor -> list EditOp -> list Selection)
    (uri : string) (e : Ext) (d : Doc) (sels : list Selection)
    (idx : nat) (s : Selection) :
  Forall (validSelection d) sels ->
  (exists text, text ∈ d /\ leadingLength text <> desiredWidth d text) ->
  sels !! idx = Some s ->
  let r := CaretAlign.runAlignment (idealHost track) uri (shown d sels) e in
  exists s',
    selectionsAfter r !! idx = Some s'
    /\ caretRule d (documentAfter r) (sel_start s) (sel_start s')
    /\ caretRule d (documentAfter r) (sel_end s) (sel_end s').
Proof.
  intros Hv Hne Hs r. unfold r.
  rewrite (caret_pass_selections track uri e d sels Hv Hne).
  rewrite (caret_pass_document track uri e d sels Hv).
  rewrite list_lookup_fmap, Hs. cbn [fmap option_fmap option_map].
  eexists. split; [reflexivity|].
  rewrite Forall_lookup in Hv. destruct (Hv idx s Hs) as [Hstart Hend].
  split; apply movedCaret_rule; assumption.
Qed.

Lemma caret_column_after_rewrite_witness :
  exists s',
    selectionsAfter (CaretAlign.runAlignment (idealHost (fun ed _ => selections ed)) "file:///a.txt"
                       (shown [text_of_string "ab"; text_of_string "cdef"]
                              [mkSelection (mkPosition 0 1) (mkPosition 1 2)])
                       initialExt) !! 0%nat = Some s'
    /\ character (sel_start s') = 3 /\ character (sel_end s') = 2.
Proof.
  destruct (caret_column_after_rewrite (fun ed _ => selections ed) "file:///a.txt" initialExt
              [text_of_string "ab"; text_of_string "cdef"]
              [mkSelection (mkPosition 0 1) (mkPosition 1 2)] 0
              (mkSelection (mkPosition 0 1) (mkPosition 1 2)))
    as (s' & Hs' & (_ & t1 & t1' & Ht1 & Ht1' & _ & Hc1) & (_ & t2 & t2' & Ht2 & Ht2' & _ & Hc2)).
  - repeat constructor; cbn; lia.
  - exists (text_of_string "ab"). split; [left|]. vm_compute. discriminate.
  - reflexivity.
  - exists s'. split; [exact Hs'|].
    vm_compute in Ht1, Ht1', Ht2, Ht2'.
    injection Ht1 as <-. injection Ht1' as <-. injection Ht2 as <-. injection Ht2' as <-.
    split; [exact Hc1|exact Hc2].
Defined.

(** A right-aligned document: every line ends at the maximum. *)
Lemma realigned_line (d : Doc) (text' : Text) :
  text' ∈ map (realign (maxContentLength d)) d ->
  leadingLength text' + contentLength text' = maxContentLength d
  /\ 0 <= leadingLength text'.
Proof.
  intros Hin. apply list_elem_of_fmap in Hin as (t & -> & Ht).
  rewrite leadingLength_realign, contentLength_realign.
  pose proof (maxContentLength_upper d t Ht). lia.
Qed.

(** C5.  After a right-alignment pass on any document, every line
    satisfies leadingWidth(line) + contentLength(line) = maxContentLength,
    the maximum content length over all lines (of the document after the
    pass, which is that of the document before it), and
    leadingWidth(line) >= 0; in the caret-preserving pass and in the
    rerun-aware pass alike. *)
Theorem aligned_lines_end_at_max (track : Editor -> list EditOp -> list Selection)
    (uri : string) (e : Ext) (d : Doc) (sels : list Selection) (text' : Text) :
  Forall (validSelection d) sels ->
  let after := documentAfter (CaretAlign.runAlignment (idealHost track) uri (shown d sels) e) in
  let after' := documentAfter (RerunAlign.runAlignment (idealHost track) uri (shown d sels) e) in
  (text' ∈ after ->
     leadingLength text' + contentLength text' = maxContentLength after
     /\ 0 <= leadingLength text')
  /\ (text' ∈ after' ->
     leadingLength text' + contentLength text' = maxContentLength after'
     /\ 0 <= leadingLength text')
  /\ maxContentLength after = maxContentLength d
  /\ maxContentLength after' = maxContentLength d.
Proof.
  intros Hv after after'. unfold after, after'.
  rewrite (caret_pass_document track uri e d sels Hv).
  rewrite (rerun_pass_document track uri e d sels).
  rewrite maxContentLength_realign.
  split; [apply realigned_line|].
  split; [apply realigned_line|].
  split; reflexivity.
Qed.

Lemma aligned_lines_end_at_max_witness :
  leadingLength (text_of_string "  a") + contentLength (text_of_string "  a")
  = maxContentLength
      (documentAfter (CaretAlign.runAlignment (idealHost (fun ed _ => selections ed))
                        "file:///a.txt"
                        (shown [text_of_string "a"; text_of_string "	bb"; text_of_string "ccc"]
                               [mkSelection (mkPosition 0 0) (mkPosition 0 1)])
                        initialExt)).
Proof.
  destruct (aligned_lines_end_at_max (fun ed _ => selections ed) "file:///a.txt" initialExt
              [text_of_string "a"; 9%N :: text_of_string "bb"; text_of_string "ccc"]
              [mkSelection (mkPosition 0 0) (mkPosition 0 1)] (text_of_string "  a"))
    as (H & _).
  - repeat constructor; cbn; lia.
  - apply H. vm_compute. left.
Defined.

(** C4.  Running the right-alignment recalculation again on the document
    a completed pass has left, with no change in between, produces an
    empty edit set, in the caret-preserving pass and in the rerun-aware
    pass alike: no line is away from its desired width any more. *)
Theorem second_pass_has_no_edits (track : Editor -> list EditOp -> list Selection)
    (uri : string) (e : Ext) (d : Doc) (sels : list Selection) :
  Forall (validSelection d) sels ->
  CaretAlign.edits
    (fst (CaretAlign.computePlan
            (documentAfter (CaretAlign.runAlignment (idealHost track) uri (shown d sels) e))))
  = []
  /\ RerunAlign.computeEdits
       (documentAfter (RerunAlign.runAlignment (idealHost track) uri (shown d sels) e))
     = Ok [].
Proof.
  intros Hv.
  rewrite (caret_pass_document track uri e d sels Hv).
  rewrite (rerun_pass_document track uri e d sels).
  split.
  - apply (map_eq_nil CaretAlign.toOp).
    destruct (CaretAlignFacts.computePlan_spec (map (realign (maxContentLength d)) d))
      as (_ & He & _).
    rewrite He. apply collect_nil. intros j text Hin.
    apply realignOps_realigned, Hin.
  - rewrite RerunAlignFacts.computeEdits_spec. f_equal.
    apply collect_nil. intros j text Hin.
    apply list_elem_of_fmap in Hin as (t & -> & Ht).
    unfold rangeEdits.
    rewrite maxContentLength_realign, leadingLength_realign, contentLength_realign.
    rewrite Z.eqb_refl. reflexivity.
Qed.

Lemma second_pass_has_no_edits_witness :
  RerunAlign.computeEdits
    (documentAfter (RerunAlign.runAlignment (idealHost (fun ed _ => selections ed))
                      "file:///a.txt"
                      (shown [text_of_string "a"; text_of_string "	bb"; text_of_string "ccc"]
                             [mkSelection (mkPosition 0 0) (mkPosition 0 1)])
                      initialExt))
  = Ok [].
Proof.
  apply (second_pass_has_no_edits (fun ed _ => selections ed) "file:///a.txt" initialExt
           [text_of_string "a"; text_of_string "	bb"; text_of_string "ccc"]
           [mkSelection (mkPosition 0 0) (mkPosition 0 1)]).
  repeat constructor; cbn; lia.
Defined.

(** C9.  For the document whose lines are ["a", "bb", "ccc"], one
    right-alignment pass produces the lines ["  a", " bb", "ccc"]: every
    line ends at column 3.  So do the caret-preserving pass and the
    rerun-aware pass, and so does the pad-to-max pass of
    [src/extension.ts] unless it last padded this document to 3. *)
Theorem scenario_a_bb_ccc (track : Editor -> list EditOp -> list Selection)
    (uri : string) (e : Ext) (sels : list Selection) :
  let d := [text_of_string "a"; text_of_string "bb"; text_of_string "ccc"] in
  let d' := [text_of_string "  a"; text_of_string " bb"; text_of_string "ccc"] in
  Forall (validSelection d) sels ->
  documentAfter (CaretAlign.runAlignment (idealHost track) uri (shown d sels) e) = d'
  /\ documentAfter (RerunAlign.runAlignment (idealHost track) uri (shown d sels) e) = d'
  /\ (default 0 (lastMax e !! uri) <> 3 ->
      documentAfter (PadToMax.timerCallback (idealHost track) uri (shown d sels) e) = d')
  /\ Forall (fun text => text_length text = 3) d'.
Proof.
  intros d d' Hv. split; [|split; [|split]].
  - rewrite (caret_pass_document track uri e d sels Hv). reflexivity.
  - rewrite (rerun_pass_document track uri e d sels). reflexivity.
  - intros Hprev.
    unfold PadToMax.timerCallback, shown, tryCatchFinally, PadToMax.tryBody, bind,
      getEditor, getExt.
    cbn [isClosed editor fst snd document set_timers lastMax].
    change (PadToMax.maxLenLoop d 0) with 3.
    destruct (Z.eqb_spec 3 (default 0 (lastMax e !! uri))) as [E|_]; [congruence|].
    reflexivity.
  - repeat constructor.
Qed.

Lemma scenario_a_bb_ccc_witness :
  documentAfter (CaretAlign.runAlignment (idealHost (fun ed _ => selections ed)) "file:///a.txt"
                   (shown [text_of_string "a"; text_of_string "bb"; text_of_string "ccc"]
                          [mkSelection (mkPosition 2 3) (mkPosition 2 3)])
                   initialExt)
  = [text_of_string "  a"; text_of_string " bb"; text_of_string "ccc"].
Proof.
  destruct (scenario_a_bb_ccc (fun ed _ => selections ed) "file:///a.txt" initialExt
              [mkSelection (mkPosition 2 3) (mkPosition 2 3)]) as (H & _).
  - repeat constructor; cbn; lia.
  - exact H.
Defined.

End RightAlignment.

(** ** The re-entrancy guard *)

Module GuardFacts.
Import Host AlignSpec.
Local Open Scope Z_scope.

(** Whatever the body does, the state a [try] leaves has been through
    the [finally] block; a thrown error is logged before that. *)
Lemma tryCatchFinally_finally (body : M unit) (prefix : string)
    (cleanup : Ext -> Ext) (s : State) :
  exists e0, fst (tryCatchFinally body prefix cleanup s) = cleanup e0.
Proof.
  unfold tryCatchFinally.
  destruct (body s) as [[e0 ed0] [u|err]]; eexists; reflexivity.
Qed.

Lemma tryCatchFinally_catch (body : M unit) (prefix : string)
    (cleanup : Ext -> Ext) (s st : State) (err : string) :
  body s = (st, Throw err) ->
  fst (tryCatchFinally body prefix cleanup s)
  = cleanup (appendLine (prefix +:+ err) (fst st)).
Proof.
  intros H. unfold tryCatchFinally. rewrite H. destruct st as [e0 ed0]. reflexivity.
Qed.

Lemma finallyBlock_releases (uri : string) (e : Ext) :
  isApplyingEdits (RerunAlign.finallyBlock uri e) = false
  /\ channel (RerunAlign.finallyBlock uri e) = channel e.
Proof.
  unfold RerunAlign.finallyBlock. cbn [set_isApplyingEdits needsRerun].
  destruct (needsRerun e); split; reflexivity.
Qed.

(** A pass that finds the document closed, or no editor showing it,
    leaves the guard as it found it. *)
Lemma skipped_pass_keeps_guard (h : HostBehaviour) (uri : string) (env : Env) (e : Ext) :
  isClosed env = true \/ editor env = None ->
  isApplyingEdits (fst (PadToMax.timerCallback h uri env e)) = isApplyingEdits e
  /\ isApplyingEdits (fst (RerunAlign.runAlignment h uri env e)) = isApplyingEdits e
  /\ isApplyingEdits (fst (CaretAlign.runAlignment h uri env e)) = isApplyingEdits e.
Proof.
  unfold PadToMax.timerCallback, RerunAlign.runAlignment, CaretAlign.runAlignment.
  intros [Hc|Hn].
  - rewrite Hc. repeat split.
  - rewrite Hn. destruct (isClosed env); repeat split.
Qed.

(** C8.  In every alignment pass that reaches its [try] block, an
    exception raised while the edits are computed or applied is caught
    and logged on the output channel, and the busy flag
    [isApplyingEdits] is false when the pass ends, whether the body
    returned early, ran to its end or threw, and whatever the host did:
    in [src/extension.ts], in the rerun-aware pass and in the
    caret-preserving pass. *)
Theorem busy_flag_released (h : HostBehaviour) (uri : string) (env : Env)
    (ed : Editor) (e : Ext) :
  isClosed env = false ->
  editor env = Some ed ->
  let e1 := set_timers (delete uri (timers e)) e in
  (isApplyingEdits (fst (PadToMax.timerCallback h uri env e)) = false
   /\ forall st err,
        PadToMax.tryBody h uri (e1, ed) = (st, Throw err) ->
        channel (fst (PadToMax.timerCallback h uri env e))
        = channel (fst st) ++ ["Error during padding: " +:+ err])
  /\ (isApplyingEdits (fst (RerunAlign.runAlignment h uri env e)) = false
      /\ forall st err,
           RerunAlign.tryBody h uri (e1, ed) = (st, Throw err) ->
           channel (fst (RerunAlign.runAlignment h uri env e))
           = channel (fst st) ++ ["Error aligning: " +:+ err])
  /\ (isApplyingEdits (fst (CaretAlign.runAlignment h uri env e)) = false
      /\ forall st err,
           CaretAlign.tryBody h uri (e1, ed) = (st, Throw err) ->
           channel (fst (CaretAlign.runAlignment h uri env e))
           = channel (fst st) ++ ["Error during padding: " +:+ err]).
Proof.
  intros Hc He e1.
  unfold PadToMax.timerCallback, RerunAlign.runAlignment, CaretAlign.runAlignment.
  rewrite Hc, He. fold e1.
  split; [|split].
  - destruct (tryCatchFinally (PadToMax.tryBody h uri) "Error during padding: "
                (set_isApplyingEdits false) (e1, ed)) as [e2 ed2] eqn:E.
    cbn [fst]. split.
    + destruct (tryCatchFinally_finally (PadToMax.tryBody h uri) "Error during padding: "
                  (set_isApplyingEdits false) (e1, ed)) as [e0 H0].
      rewrite E in H0. cbn [fst] in H0. subst e2. reflexivity.
    + intros st err Hthrow.
      pose proof (tryCatchFinally_catch _ "Error during padding: "
                    (set_isApplyingEdits false) _ _ _ Hthrow) as H1.
      rewrite E in H1. cbn [fst] in H1. subst e2. reflexivity.
  - destruct (tryCatchFinally (RerunAlign.tryBody h uri) "Error aligning: "
                (RerunAlign.finallyBlock uri) (e1, ed)) as [e2 ed2] eqn:E.
    cbn [fst]. split.
    + destruct (tryCatchFinally_finally (RerunAlign.tryBody h uri) "Error aligning: "
                  (RerunAlign.finallyBlock uri) (e1, ed)) as [e0 H0].
      rewrite E in H0. cbn [fst] in H0. subst e2. apply finallyBlock_releases.
    + intros st err Hthrow.
      pose proof (tryCatchFinally_catch _ "Error aligning: "
                    (RerunAlign.finallyBlock uri) _ _ _ Hthrow) as H1.
      rewrite E in H1. cbn [fst] in H1. subst e2.
      destruct (finallyBlock_releases uri (appendLine ("Error aligning: " +:+ err) (fst st)))
        as [_ ->]. reflexivity.
  - destruct (tryCatchFinally (CaretAlign.tryBody h uri) "Error during padding: "
                (set_isApplyingEdits false) (e1, ed)) as [e2 ed2] eqn:E.
    cbn [fst]. split.
    + destruct (tryCatchFinally_finally (CaretAlign.tryBody h uri) "Error during padding: "
                  (set_isApplyingEdits false) (e1, ed)) as [e0 H0].
      rewrite E in H0. cbn [fst] in H0. subst e2. reflexivity.
    + intros st err Hthrow.
      pose proof (tryCatchFinally_catch _ "Error during padding: "
                    (set_isApplyingEdits false) _ _ _ Hthrow) as H1.
      rewrite E in H1. cbn [fst] in H1. subst e2. reflexivity.
Qed.

(** A host that rejects the batch (the document was closed in flight):
    the error is logged and the guard is released. *)
Lemma busy_flag_released_witness :
  let h := {| edit := fun _ _ => Rejected "closed";
              changeEventWhileBusy := false;
              setSelections := fun _ => None |} in
  let env := shown [text_of_string "a"; text_of_string "bb"] [] in
  isApplyingEdits (fst (PadToMax.timerCallback h "file:///a.txt" env initialExt)) = false
  /\ channel (fst (PadToMax.timerCallback h "file:///a.txt" env initialExt))
     = ["Error during padding: closed"]
  /\ isApplyingEdits (fst (RerunAlign.runAlignment h "file:///a.txt" env initialExt)) = false
  /\ channel (fst (RerunAlign.runAlignment h "file:///a.txt" env initialExt))
     = ["Error aligning: closed"].
Proof.
  intros h env.
  destruct (busy_flag_released h "file:///a.txt" env
              (mkEditor [text_of_string "a"; text_of_string "bb"] []) initialExt
              eq_refl eq_refl) as ((Hp & Hpl) & (Hr & Hrl) & _).
  split; [exact Hp|]. split.
  - rewrite (Hpl (set_isApplyingEdits true initialExt,
                  mkEditor [text_of_string "a"; text_of_string "bb"] []) "closed").
    + reflexivity.
    + vm_compute. reflexivity.
  - split; [exact Hr|].
    rewrite (Hrl (set_isApplyingEdits true initialExt,
                  mkEditor [text_of_string "a"; text_of_string "bb"] []) "closed").
    + reflexivity.
    + vm_compute. reflexivity.
Defined.

End GuardFacts.

(** ** The align and unalign commands *)

Module CommandFacts.
Import Host AlignSpec PassSpec TextFacts BatchFacts Commands.
Local Open Scope Z_scope.

Lemma maxLengthLoop_spec (lines : Doc) (m : Z) :
  0 <= m -> maxLengthLoop lines m = Z.max m (maxLength lines).
Proof.
  revert m. induction lines as [|t rest IH]; intros m Hm.
  - cbn. lia.
  - cbn [maxLengthLoop].
    rewrite IH by (destruct (Z.gtb_spec (text_length t) m); lia).
    change (maxLength (t :: rest)) with (Z.max (text_length t) (maxLength rest)).
    destruct (Z.gtb_spec (text_length t) m); lia.
Qed.

Lemma maxLength_nonneg (d : Doc) : 0 <= maxLength d.
Proof.
  induction d as [|t d IH]; [cbn; lia|].
  change (maxLength (t :: d)) with (Z.max (text_length t) (maxLength d)). lia.
Qed.

Lemma maxLength_upper (d : Doc) (text : Text) : text ∈ d -> text_length text <= maxLength d.
Proof.
  induction d as [|t d IH]; intros Hin; [inversion Hin|].
  change (maxLength (t :: d)) with (Z.max (text_length t) (maxLength d)).
  apply elem_of_cons in Hin as [->|Hin]; [lia|].
  specialize (IH Hin). lia.
Qed.

(** The longest length is the length of some line, and it is any bound
    that some line reaches. *)
Lemma maxLength_witness (d : Doc) :
  d <> [] -> exists text, text ∈ d /\ text_length text = maxLength d.
Proof.
  induction d as [|t d IH]; intros Hne; [congruence|].
  change (maxLength (t :: d)) with (Z.max (text_length t) (maxLength d)).
  destruct d as [|t' d'].
  - exists t. split; [left|]. cbn. pose proof (text_length_nonneg t). lia.
  - destruct IH as (x & Hx & Hlen); [congruence|].
    destruct (Z.le_gt_cases (maxLength (t' :: d')) (text_length t)).
    + exists t. split; [left|lia].
    + exists x. split; [right; exact Hx|lia].
Qed.

Lemma maxLength_attained (d : Doc) (L : Z) :
  (forall text, text ∈ d -> text_length text <= L) ->
  (exists text, text ∈ d /\ text_length text = L) ->
  maxLength d = L.
Proof.
  intros Hle (t & Hin & Ht).
  destruct (maxLength_witness d) as (x & Hx & Hmax).
  { intros ->. inversion Hin. }
  pose proof (maxLength_upper d t Hin). pose proof (Hle x Hx). lia.
Qed.

Lemma alignLoop_collect (lines : Doc) (i m : Z) :
  alignLoop lines i m = collect (alignOps m) lines i.
Proof.
  revert i. induction lines as [|t rest IH]; intros i; [reflexivity|].
  cbn [alignLoop collect]. rewrite IH. reflexivity.
Qed.

Lemma unalignLoop_collect (lines : Doc) (i : Z) :
  unalignLoop lines i = collect unalignOps lines i.
Proof.
  revert i. induction lines as [|t rest IH]; intros i; [reflexivity|].
  cbn [unalignLoop collect]. rewrite IH. reflexivity.
Qed.

Lemma align_lineEdit (m : Z) : lineEdit (alignOps m) (padLine m).
Proof.
  intros i text d Hi. unfold alignOps, padLine.
  destruct (m - text_length text >? 0).
  - cbn [foldl applyOp line character].
    rewrite (spliceAt_lookup i _ _ _ text d Hi).
    unfold spliceLine. cbn. reflexivity.
  - cbn. symmetry. apply list_insert_id, Hi.
Qed.

Lemma unalign_lineEdit : lineEdit unalignOps unalignLine.
Proof.
  intros i text d Hi. unfold unalignOps, unalignLine.
  destruct (startsWithSpace text).
  - cbn [foldl applyOp line character range_start range_end].
    rewrite Z.eqb_refl, (spliceAt_lookup i _ _ _ text d Hi).
    unfold spliceLine. cbn. reflexivity.
  - cbn. symmetry. apply list_insert_id, Hi.
Qed.

(** The loops of the live listener are those of the align command. *)
Lemma live_maxLengthLoop_spec (lines : Doc) (m : Z) :
  0 <= m -> LiveAlign.maxLengthLoop lines m = Z.max m (maxLength lines).
Proof.
  revert m. induction lines as [|t rest IH]; intros m Hm.
  - cbn. lia.
  - cbn [LiveAlign.maxLengthLoop].
    rewrite IH by (destruct (Z.gtb_spec (text_length t) m); lia).
    change (maxLength (t :: rest)) with (Z.max (text_length t) (maxLength rest)).
    destruct (Z.gtb_spec (text_length t) m); lia.
Qed.

Lemma live_padLoop_collect (lines : Doc) (i m : Z) :
  LiveAlign.padLoop lines i m = collect (alignOps m) lines i.
Proof.
  revert i. induction lines as [|t rest IH]; intros i; [reflexivity|].
  cbn [LiveAlign.padLoop collect]. rewrite IH. reflexivity.
Qed.

(** [needEdit] is set exactly when some line is shorter than the
    maximum; otherwise padding changes no line. *)
Lemma needEditLoop_false (lines : Doc) (m : Z) :
  LiveAlign.needEditLoop lines m = false -> map (padLine m) lines = lines.
Proof.
  induction lines as [|t rest IH]; [reflexivity|].
  cbn [LiveAlign.needEditLoop map].
  destruct (Z.ltb_spec (text_length t) m) as [|Hge]; [discriminate|].
  intros H. rewrite (IH H). unfold padLine.
  destruct (Z.gtb_spec (m - text_length t) 0); [lia|reflexivity].
Qed.

Lemma needEditLoop_true (lines : Doc) (m : Z) :
  LiveAlign.needEditLoop lines m = true <-> exists text, text ∈ lines /\ text_length text < m.
Proof.
  induction lines as [|t rest IH]; cbn [LiveAlign.needEditLoop].
  - split; [discriminate|]. intros (x & Hx & _). inversion Hx.
  - destruct (Z.ltb_spec (text_length t) m) as [Hlt|Hge].
    + split; [|reflexivity]. intros _. exists t. split; [left|exact Hlt].
    + rewrite IH. split.
      * intros (x & Hx & Hlt). exists x. split; [right; exact Hx|exact Hlt].
      * intros (x & Hx & Hlt). apply elem_of_cons in Hx as [->|Hx]; [lia|].
        exists x. split; assumption.
Qed.

(** Lines that begin with a space. *)
Lemma startsWithSpace_head (text : Text) :
  startsWithSpace text = true <-> head text = Some SPACE.
Proof.
  unfold startsWithSpace, text_length. destruct text as [|c rest]; cbn [head length].
  - split; [intros H; discriminate|intros H; discriminate].
  - destruct (Z.gtb_spec (Z.of_nat (S (length rest))) 0); [|lia].
    rewrite andb_true_l. apply bool_decide_eq_true.
Qed.

Lemma startsWithSpace_cons (c : N) (rest : Text) :
  startsWithSpace (c :: rest) = N.eqb c SPACE.
Proof.
  unfold startsWithSpace, text_length. cbn [length head].
  destruct (Z.gtb_spec (Z.of_nat (S (length rest))) 0); [|lia].
  rewrite andb_true_l.
  destruct (N.eqb_spec c SPACE) as [->|Hne].
  - apply bool_decide_eq_true_2. reflexivity.
  - apply bool_decide_eq_false_2. congruence.
Qed.

Lemma unalignLine_space (text : Text) : unalignLine (SPACE :: text) = text.
Proof. unfold unalignLine. rewrite startsWithSpace_cons. reflexivity. Qed.

Lemma startsWithSpace_drop (r : nat) (text : Text) :
  (r < leadingSpaces text)%nat -> startsWithSpace (drop r text) = true.
Proof.
  revert r. induction text as [|c rest IH]; intros r Hr; [cbn in Hr; lia|].
  cbn [leadingSpaces] in Hr. destruct (N.eqb_spec c SPACE) as [->|Hne]; [|lia].
  destruct r as [|r]; [reflexivity|].
  cbn [drop]. apply IH. lia.
Qed.

Lemma startsWithSpace_drop_all (text : Text) :
  startsWithSpace (drop (leadingSpaces text) text) = false.
Proof.
  induction text as [|c rest IH]; [reflexivity|].
  cbn [leadingSpaces]. destruct (N.eqb_spec c SPACE) as [->|Hne].
  - cbn [drop]. exact IH.
  - cbn [drop]. rewrite startsWithSpace_cons. apply N.eqb_neq, Hne.
Qed.


(** The spaces common to all lines. *)
Lemma commonSpaces_le (d : Doc) (text : Text) :
  text ∈ d -> (commonSpaces d <= leadingSpaces text)%nat.
Proof.
  destruct d as [|t0 rest]; intros Hin; [inversion Hin|].
  cbn [commonSpaces].
  assert (H : forall (l : Doc) (m : nat),
             (foldr (fun t k => Nat.min (leadingSpaces t) k) m l <= m)%nat
             /\ forall x, x ∈ l ->
                  (foldr (fun t k => Nat.min (leadingSpaces t) k) m l <= leadingSpaces x)%nat).
  { intros l m. induction l as [|a l [IH1 IH2]]; cbn [foldr].
    - split; [lia|]. intros x Hx. inversion Hx.
    - split; [lia|]. intros x Hx.
      apply elem_of_cons in Hx as [->|Hx]; [lia|]. specialize (IH2 x Hx). lia. }
  destruct (H rest (leadingSpaces t0)) as [H1 H2].
  apply elem_of_cons in Hin as [->|Hin]; [exact H1|apply H2, Hin].
Qed.

Lemma commonSpaces_attained (d : Doc) :
  d <> [] -> exists text, text ∈ d /\ leadingSpaces text = commonSpaces d.
Proof.
  destruct d as [|t0 rest]; intros Hne; [congruence|].
  cbn [commonSpaces].
  assert (H : forall (l : Doc) (m : nat),
             foldr (fun t k => Nat.min (leadingSpaces t) k) m l = m
             \/ exists x, x ∈ l
                  /\ leadingSpaces x = foldr (fun t k => Nat.min (leadingSpaces t) k) m l).
  { intros l m. induction l as [|a l IH]; cbn [foldr]; [left; reflexivity|].
    destruct (Nat.min_spec (leadingSpaces a)
                (foldr (fun t k => Nat.min (leadingSpaces t) k) m l)) as [[_ ->]|[_ ->]].
    - right. exists a. split; [left|reflexivity].
    - destruct IH as [->|(x & Hx & Hlen)]; [left; reflexivity|].
      right. exists x. split; [right; exact Hx|exact Hlen]. }
  destruct (H rest (leadingSpaces t0)) as [->|(x & Hx & Hlen)].
  - exists t0. split; [left|reflexivity].
  - exists x. split; [right; exact Hx|exact Hlen].
Qed.

(** The width align inserts on a line. *)
Lemma padOf_le_maxPad (d : Doc) (text : Text) : text ∈ d -> padOf d text <= maxPad d.
Proof.
  unfold maxPad. generalize (padOf d). intros f.
  induction d as [|t d IH]; intros Hin; [inversion Hin|].
  cbn. apply elem_of_cons in Hin as [->|Hin]; [lia|].
  specialize (IH Hin). lia.
Qed.

Lemma padOf_maxLength (d : Doc) (text : Text) :
  padOf d text = Z.max 0 (maxLength d - text_length text).
Proof.
  unfold padOf. rewrite maxLengthLoop_spec by lia.
  rewrite (Z.max_r 0 (maxLength d)) by apply maxLength_nonneg. reflexivity.
Qed.

Lemma padLine_spaces (d : Doc) (text : Text) :
  padLine (maxLength d) text = replicate (Z.to_nat (padOf d text)) SPACE ++ text.
Proof.
  unfold padLine. rewrite padOf_maxLength.
  destruct (Z.gtb_spec (maxLength d - text_length text) 0) as [Hgt|Hle].
  - unfold repeat_space. rewrite Z.max_r by lia. reflexivity.
  - rewrite Z.max_l by lia. reflexivity.
Qed.

Lemma map_fixed {A : Type} (f : A -> A) (l : list A) :
  (forall x, x ∈ l -> f x = x) <-> map f l = l.
Proof.
  induction l as [|a l IH]; cbn [map].
  - split; [reflexivity|]. intros _ x Hx. inversion Hx.
  - split.
    + intros H. f_equal; [apply H; left|]. apply IH. intros x Hx. apply H. right. exact Hx.
    + intros H x Hx. injection H as Ha Hl.
      apply elem_of_cons in Hx as [->|Hx]; [exact Ha|]. apply IH; assumption.
Qed.

Lemma padLine_length (d : Doc) (text : Text) :
  text ∈ d -> text_length (padLine (maxLength d) text) = maxLength d.
Proof.
  intros Hin. rewrite padLine_spaces, text_length_app, padOf_maxLength.
  unfold text_length at 1. rewrite length_replicate.
  pose proof (maxLength_upper d text Hin). lia.
Qed.

Lemma maxLength_padded (d : Doc) : maxLength (map (padLine (maxLength d)) d) = maxLength d.
Proof.
  assert (H : forall m l, (forall t, t ∈ l -> text_length (padLine m t) = m) -> l <> [] ->
                          maxLength (map (padLine m) l) = m).
  { intros m l. induction l as [|t l IH]; intros Hl Hne; [congruence|].
    cbn [map]. change (maxLength (padLine m t :: map (padLine m) l))
      with (Z.max (text_length (padLine m t)) (maxLength (map (padLine m) l))).
    rewrite (Hl t) by left.
    destruct l as [|t' l'].
    - cbn. pose proof (Hl t ltac:(left)). pose proof (text_length_nonneg (padLine m t)). lia.
    - rewrite IH; [lia| |congruence]. intros x Hx. apply Hl. right. exact Hx. }
  destruct d as [|t d]; [reflexivity|].
  apply H; [|congruence]. intros x Hx. apply padLine_length, Hx.
Qed.

(** Padding changes nothing where all lines have the same length, and
    such are the documents padding leaves. *)
Lemma padLine_equal_lengths (d : Doc) :
  (forall text, text ∈ d -> text_length text = maxLength d) ->
  map (padLine (maxLength d)) d = d.
Proof.
  intros H. apply map_fixed. intros text Hin.
  unfold padLine. rewrite (H text Hin), Z.sub_diag. reflexivity.
Qed.

Lemma padded_equal_lengths (d : Doc) (text : Text) :
  text ∈ map (padLine (maxLength d)) d ->
  text_length text = maxLength (map (padLine (maxLength d)) d).
Proof.
  intros Hin. rewrite maxLength_padded.
  apply list_elem_of_fmap in Hin as (t & -> & Ht). apply padLine_length, Ht.
Qed.

Lemma dropped_equal_lengths (r : nat) (d : Doc) :
  (forall text, text ∈ d -> text_length text = maxLength d) ->
  forall text, text ∈ map (drop r) d -> text_length text = maxLength (map (drop r) d).
Proof.
  intros Hu text Hin.
  assert (Hall : forall x, x ∈ map (drop r) d ->
                   text_length x = Z.of_nat (Z.to_nat (maxLength d) - r)).
  { intros x Hx. apply list_elem_of_fmap in Hx as (t & -> & Ht).
    specialize (Hu t Ht). unfold text_length in *. rewrite length_drop. lia. }
  rewrite (Hall text Hin). symmetry. apply maxLength_attained.
  - intros x Hx. rewrite (Hall x Hx). lia.
  - exists text. split; [exact Hin|apply Hall, Hin].
Qed.

(** What the listener makes of a document when its guard is released. *)
Lemma listener_pads (track : Editor -> list EditOp -> list Selection) (ed : Editor)
    (con : list string) :
  exists ed',
    snd (LiveAlign.changeListener (idealHost track) (Some ed) (LiveAlign.mkClosure false con))
    = Some ed'
    /\ document ed' = map (padLine (maxLength (document ed))) (document ed).
Proof.
  unfold LiveAlign.changeListener. cbn [LiveAlign.isApplyingEdits].
  rewrite live_maxLengthLoop_spec by lia.
  rewrite (Z.max_r 0 (maxLength (document ed))) by apply maxLength_nonneg.
  destruct (LiveAlign.needEditLoop (document ed) (maxLength (document ed))) eqn:En;
    cbn [negb idealHost edit fst snd].
  - eexists. split; [reflexivity|]. cbn [document].
    rewrite live_padLoop_collect. apply applyOps_collect_doc, align_lineEdit.
  - exists ed. split; [reflexivity|]. symmetry. apply needEditLoop_false, En.
Qed.

(** A command in the activated extension: its batch, and then the
    listener when the batch has changed the document. *)
Lemma afterCommand_document (track : Editor -> list EditOp -> list Selection)
    (cmd : HostBehaviour -> option Editor -> Result (option Editor)) (ed ed1 : Editor) :
  cmd (idealHost track) (Some ed) = Ok (Some ed1) ->
  document (afterCommand track cmd ed)
  = if decide (document ed1 = document ed) then document ed1
    else map (padLine (maxLength (document ed1))) (document ed1).
Proof.
  intros H. unfold afterCommand. rewrite H.
  destruct (decide (document ed1 = document ed)); [reflexivity|].
  destruct (listener_pads track ed1 []) as (ed2 & -> & Hdoc). exact Hdoc.
Qed.

Lemma alignDocument_batch (track : Editor -> list EditOp -> list Selection) (ed : Editor) :
  exists ed1,
    alignDocument (idealHost track) (Some ed) = Ok (Some ed1)
    /\ document ed1 = map (padLine (maxLength (document ed))) (document ed).
Proof.
  unfold alignDocument, runBatch. cbn [idealHost edit].
  eexists. split; [reflexivity|]. cbn [document].
  rewrite maxLengthLoop_spec by lia.
  rewrite Z.max_r by apply maxLength_nonneg.
  rewrite alignLoop_collect. apply applyOps_collect_doc, align_lineEdit.
Qed.

Lemma unalignDocument_batch (track : Editor -> list EditOp -> list Selection) (ed : Editor) :
  exists ed1,
    unalignDocument (idealHost track) (Some ed) = Ok (Some ed1)
    /\ document ed1 = map unalignLine (document ed).
Proof.
  unfold unalignDocument, runBatch. cbn [idealHost edit].
  eexists. split; [reflexivity|]. cbn [document].
  rewrite unalignLoop_collect. apply applyOps_collect_doc, unalign_lineEdit.
Qed.

(** The documents the two commands leave in the activated extension.
    After align the listener finds no line shorter than the longest;
    after unalign it pads what is shorter than the longest line left. *)
Lemma alignDocument_ideal (track : Editor -> list EditOp -> list Selection) (ed : Editor) :
  document (afterCommand track alignDocument ed)
  = map (padLine (maxLength (document ed))) (document ed).
Proof.
  destruct (alignDocument_batch track ed) as (ed1 & H1 & Hd).
  rewrite (afterCommand_document _ _ _ _ H1), Hd.
  destruct (decide _); [reflexivity|].
  apply padLine_equal_lengths. intros text Hin. apply padded_equal_lengths, Hin.
Qed.

Lemma unalignDocument_ideal (track : Editor -> list EditOp -> list Selection) (ed : Editor) :
  document (afterCommand track unalignDocument ed)
  = if decide (map unalignLine (document ed) = document ed) then document ed
    else map (padLine (maxLength (map unalignLine (document ed))))
             (map unalignLine (document ed)).
Proof.
  destruct (unalignDocument_batch track ed) as (ed1 & H1 & Hd).
  rewrite (afterCommand_document _ _ _ _ H1), Hd.
  destruct (decide _) as [Heq|]; [exact Heq|reflexivity].
Qed.

Lemma forallb_false_elem {A : Type} (f : A -> bool) (l : list A) :
  forallb f l = false -> exists x, x ∈ l /\ f x = false.
Proof.
  induction l as [|a l IH]; cbn [forallb]; [discriminate|].
  destruct (f a) eqn:Ea; cbn [andb].
  - intros H. destruct (IH H) as (x & Hx & Hf). exists x. split; [right; exact Hx|exact Hf].
  - intros _. exists a. split; [left|exact Ea].
Qed.

(** One run of unalign on a document whose lines all have the same
    length: a column of spaces is removed when every line begins with
    one; otherwise the listener puts back what was removed. *)
Lemma one_run_of_unalign (track : Editor -> list EditOp -> list Selection) (ed : Editor) :
  (forall text, text ∈ document ed -> text_length text = maxLength (document ed)) ->
  document (afterCommand track unalignDocument ed)
  = if forallb startsWithSpace (document ed) then map (drop 1) (document ed)
    else document ed.
Proof.
  intros Hu. rewrite unalignDocument_ideal.
  destruct (forallb startsWithSpace (document ed)) eqn:Ef.
  - assert (Hmap : map unalignLine (document ed) = map (drop 1) (document ed)).
    { apply map_ext_in. intros t Ht. unfold unalignLine.
      rewrite forallb_forall in Ef. rewrite (Ef t Ht). reflexivity. }
    rewrite Hmap.
    destruct (decide _) as [Heq|Hne]; [symmetry; exact Heq|].
    apply padLine_equal_lengths, (dropped_equal_lengths 1), Hu.
  - destruct (decide _) as [Heq|Hne]; [reflexivity|].
    destruct (forallb_false_elem _ _ Ef) as (t0 & Hin0 & H0).
    assert (Hlen : forall t, text_length (unalignLine t) <= text_length t).
    { intros t. unfold unalignLine, text_length.
      destruct (startsWithSpace t); [rewrite length_drop|]; lia. }
    rewrite (maxLength_attained (map unalignLine (document ed)) (maxLength (document ed))).
    + rewrite map_map. apply map_fixed. intros t Ht.
      destruct (startsWithSpace t) eqn:Et.
      * pose proof (proj1 (startsWithSpace_head t) Et) as Hh.
        destruct t as [|c rest]; [discriminate Hh|]. injection Hh as ->.
        rewrite unalignLine_space. unfold padLine.
        specialize (Hu _ Ht). unfold text_length in Hu |- *. cbn [length] in Hu.
        replace (maxLength (document ed) - Z.of_nat (length rest)) with 1 by lia.
        reflexivity.
      * unfold unalignLine. rewrite Et. unfold padLine.
        rewrite (Hu t Ht), Z.sub_diag. reflexivity.
    + intros x Hx. apply list_elem_of_fmap in Hx as (t & -> & Ht).
      specialize (Hlen t). rewrite (Hu t Ht) in Hlen. exact Hlen.
    + exists t0. split.
      * apply list_elem_of_fmap. exists t0. split; [|exact Hin0].
        unfold unalignLine. rewrite H0. reflexivity.
      * apply Hu, Hin0.
Qed.

(** Runs of unalign in a row: only a column of spaces common to all
    lines is ever removed. *)
Lemma runs_of_unalign (track : Editor -> list EditOp -> list Selection)
    (n : nat) (ed : Editor) :
  (forall text, text ∈ document ed -> text_length text = maxLength (document ed)) ->
  document (Nat.iter n (afterCommand track unalignDocument) ed)
  = map (drop (Nat.min n (commonSpaces (document ed)))) (document ed).
Proof.
  intros Hu. induction n as [|n IH].
  - cbn [Nat.iter nat_rect Nat.min]. symmetry. apply map_fixed. reflexivity.
  - cbn [Nat.iter nat_rect].
    change (nat_rect _ ?x (fun _ => ?f) n) with (Nat.iter n f x).
    rewrite one_run_of_unalign; rewrite IH.
    2: { apply dropped_equal_lengths, Hu. }
    destruct (decide (document ed = [])) as [Hnil|Hne]; [rewrite Hnil; reflexivity|].
    destruct (Nat.lt_ge_cases n (commonSpaces (document ed))) as [Hlt|Hge].
    + rewrite (Nat.min_l n) by lia. rewrite (Nat.min_l (S n)) by lia.
      assert (forallb startsWithSpace (map (drop n) (document ed)) = true) as ->.
      { apply forallb_forall. intros x Hx. apply list_elem_of_In in Hx.
        apply list_elem_of_fmap in Hx as (t & -> & Ht).
        apply startsWithSpace_drop. pose proof (commonSpaces_le _ _ Ht). lia. }
      rewrite map_map. apply map_ext. intros t. rewrite drop_drop.
      f_equal. lia.
    + rewrite (Nat.min_r n) by lia. rewrite (Nat.min_r (S n)) by lia.
      assert (forallb startsWithSpace
                (map (drop (commonSpaces (document ed))) (document ed)) = false) as ->;
        [|reflexivity].
      destruct (commonSpaces_attained _ Hne) as (t0 & Hin0 & H0).
      destruct (forallb _ _) eqn:Ef; [exfalso|reflexivity].
      rewrite forallb_forall in Ef.
      specialize (Ef (drop (commonSpaces (document ed)) t0)).
      rewrite <- H0, startsWithSpace_drop_all in Ef.
      assert (false = true); [|discriminate]. apply Ef.
      apply list_elem_of_In, list_elem_of_fmap. exists t0. split; [reflexivity|exact Hin0].
Qed.






(** The padding itself is not taken back either.  In ["a", "bb"] no line
    is empty and none begins with a space; align inserts one space
    before "a".  The batch of unalign removes that space again, but the
    document has then changed, the listener finds "a" shorter than "bb"
    and pads it: after any number of runs of unalign the document is
    still [" a", "bb"]. *)
Lemma unalign_is_repadded :
  let d := [text_of_string "a"; text_of_string "bb"] in
  maxPad d = 1
  /\ forall (track : Editor -> list EditOp -> list Selection) (sels : list Selection),
       let aligned := afterCommand track alignDocument (mkEditor d sels) in
       document aligned = [text_of_string " a"; text_of_string "bb"]
       /\ applyOps (unalignLoop (document aligned) 0) (document aligned) = d
       /\ forall n : nat,
            document (Nat.iter n (afterCommand track unalignDocument) aligned)
            = [text_of_string " a"; text_of_string "bb"].
Proof.
  intros d. split; [reflexivity|]. intros track sels aligned.
  assert (Ha : document aligned = [text_of_string " a"; text_of_string "bb"]).
  { unfold aligned. rewrite alignDocument_ideal. reflexivity. }
  split; [exact Ha|]. split; [rewrite Ha; reflexivity|].
  intros n. rewrite runs_of_unalign; rewrite Ha.
  - destruct n; reflexivity.
  - intros text Hin.
    repeat (apply elem_of_cons in Hin as [->|Hin]); try reflexivity.
    inversion Hin.
Qed.

End CommandFacts.

(** ** [src/extension.ts]: the pad-to-max pass *)

Module PadToMaxFacts.
Import Host AlignSpec PassSpec TextFacts BatchFacts Commands CommandFacts.
Local Open Scope Z_scope.

Lemma maxLenLoop_spec (lines : Doc) (m : Z) :
  0 <= m -> PadToMax.maxLenLoop lines m = Z.max m (maxLength lines).
Proof.
  revert m. induction lines as [|t rest IH]; intros m Hm.
  - cbn. lia.
  - cbn [PadToMax.maxLenLoop].
    rewrite IH by (destruct (Z.gtb_spec (text_length t) m); lia).
    change (maxLength (t :: rest)) with (Z.max (text_length t) (maxLength rest)).
    destruct (Z.gtb_spec (text_length t) m); lia.
Qed.

Lemma maxLenLoop_doc (d : Doc) : PadToMax.maxLenLoop d 0 = maxLength d.
Proof.
  rewrite maxLenLoop_spec by lia. apply Z.max_r, maxLength_nonneg.
Qed.

Lemma padLoop_collect (lines : Doc) (i m : Z) :
  PadToMax.padLoop lines i m = collect (alignOps m) lines i.
Proof.
  revert i. induction lines as [|t rest IH]; intros i; [reflexivity|].
  cbn [PadToMax.padLoop collect]. rewrite IH. reflexivity.
Qed.

(** A padded line is the line behind the spaces it lacked. *)
(** The pass on a host that applies the batch. *)
Lemma pad_pass_ideal (track : Editor -> list EditOp -> list Selection)
    (uri : string) (e : Ext) (d : Doc) (sels : list Selection) :
  let e1 := set_timers (delete uri (timers e)) e in
  let m := maxLength d in
  PadToMax.timerCallback (idealHost track) uri (shown d sels) e
  = if m =? default 0 (lastMax e !! uri)
    then (set_isApplyingEdits false
            (appendLine ("No change in max length (" +:+ pretty m +:+ ") for " +:+ uri) e1),
          shown d sels)
    else (set_isApplyingEdits false
            (appendLine ("Applied left padding to reach length " +:+ pretty m
                         +:+ " for " +:+ uri)
               (set_lastMax uri m (set_isApplyingEdits true e1))),
          shown (map (padLine m) d) (track (mkEditor d sels) (collect (alignOps m) d 0))).
Proof.
  intros e1 m.
  unfold PadToMax.timerCallback, shown, tryCatchFinally, PadToMax.tryBody, bind,
    getEditor, getExt.
  cbn [isClosed editor fst snd document]. fold e1.
  rewrite maxLenLoop_doc. fold m.
  change (lastMax e1) with (lastMax e).
  destruct (m =? default 0 (lastMax e !! uri)); [reflexivity|].
  unfold modifyExt, awaitEdit.
  cbn [fst snd idealHost edit changeEventWhileBusy PadToMax.onDidChangeTextDocument
       set_isApplyingEdits isApplyingEdits document].
  rewrite padLoop_collect.
  rewrite (applyOps_collect_doc _ _ d (align_lineEdit m)).
  reflexivity.
Qed.

(** The pass when the longest line is as long as the length recorded
    for the document, whatever the host. *)
Lemma gated_pass_result (h : HostBehaviour) (uri : string) (e : Ext) (ed : Editor) :
  default 0 (lastMax e !! uri) = maxLength (document ed) ->
  PadToMax.timerCallback h uri (mkEnv false (Some ed)) e
  = (set_isApplyingEdits false
       (appendLine ("No change in max length (" +:+ pretty (maxLength (document ed))
                    +:+ ") for " +:+ uri)
          (set_timers (delete uri (timers e)) e)),
     mkEnv false (Some ed)).
Proof.
  intros Hprev.
  unfold PadToMax.timerCallback, tryCatchFinally, PadToMax.tryBody, bind, getEditor, getExt.
  cbn [isClosed editor fst snd]. rewrite maxLenLoop_doc.
  change (lastMax (set_timers (delete uri (timers e)) e)) with (lastMax e).
  rewrite Hprev, Z.eqb_refl. reflexivity.
Qed.

(** X1.  When the longest line is not as long as the length recorded for
    the document, a pad-to-max pass whose batch is applied leaves every
    line at the length of the longest line, each line being its old
    text behind the spaces it lacked; it records that length for the
    document and releases the guard. *)
Theorem pad_pass_equal_lengths (track : Editor -> list EditOp -> list Selection)
    (uri : string) (e : Ext) (d : Doc) (sels : list Selection) :
  default 0 (lastMax e !! uri) <> maxLength d ->
  let r := PadToMax.timerCallback (idealHost track) uri (shown d sels) e in
  length (documentAfter r) = length d
  /\ (forall (i : nat) (text : Text), d !! i = Some text ->
        exists pad : nat,
          documentAfter r !! i = Some (replicate pad SPACE ++ text)
          /\ Z.of_nat pad + text_length text = maxLength d)
  /\ lastMax (fst r) !! uri = Some (maxLength d)
  /\ isApplyingEdits (fst r) = false.
Proof.
  intros Hprev r. unfold r. rewrite pad_pass_ideal.
  destruct (Z.eqb_spec (maxLength d) (default 0 (lastMax e !! uri))) as [E|_]; [congruence|].
  unfold documentAfter, shown. cbn [snd fst editor document].
  split; [apply length_map|]. split; [|split].
  - intros i text Hi. exists (Z.to_nat (padOf d text)).
    rewrite list_lookup_fmap, Hi. cbn [fmap option_fmap option_map].
    rewrite padLine_spaces. split; [reflexivity|].
    rewrite padOf_maxLength.
    pose proof (maxLength_upper d text (list_elem_of_lookup_2 _ _ _ Hi)). lia.
  - cbn. apply lookup_insert_eq.
  - reflexivity.
Qed.

Lemma pad_pass_equal_lengths_witness :
  lastMax (fst (PadToMax.timerCallback (idealHost (fun ed _ => selections ed)) "file:///a.txt"
                  (shown [text_of_string " x"; text_of_string "yyyy"; []] []) initialExt))
    !! "file:///a.txt"
  = Some 4.
Proof.
  destruct (pad_pass_equal_lengths (fun ed _ => selections ed) "file:///a.txt" initialExt
              [text_of_string " x"; text_of_string "yyyy"; []] [])
    as (_ & _ & H & _).
  - vm_compute. discriminate.
  - exact H.
Defined.

(** X2.  When the longest line is as long as the length recorded for
    the document (0 when none is recorded), the pad-to-max pass issues
    no batch, whatever the host: the editor is left as it is, shorter
    lines included, and only a line is logged. *)
Theorem pad_pass_gate (h : HostBehaviour) (uri : string) (e : Ext) (ed : Editor) :
  default 0 (lastMax e !! uri) = maxLength (document ed) ->
  let r := PadToMax.timerCallback h uri (mkEnv false (Some ed)) e in
  snd r = mkEnv false (Some ed)
  /\ lastMax (fst r) = lastMax e
  /\ channel (fst r)
     = channel e ++ ["No change in max length (" +:+ pretty (maxLength (document ed))
                     +:+ ") for " +:+ uri]
  /\ isApplyingEdits (fst r) = false.
Proof.
  intros Hprev r. unfold r. rewrite (gated_pass_result h uri e ed Hprev).
  repeat split.
Qed.

Lemma pad_pass_gate_witness :
  documentAfter (PadToMax.timerCallback (idealHost (fun ed _ => selections ed)) "file:///a.txt"
                   (shown [text_of_string "a"; text_of_string "bbb"] [])
                   (set_lastMax "file:///a.txt" 3 initialExt))
  = [text_of_string "a"; text_of_string "bbb"].
Proof.
  destruct (pad_pass_gate (idealHost (fun ed _ => selections ed)) "file:///a.txt"
              (set_lastMax "file:///a.txt" 3 initialExt)
              (mkEditor [text_of_string "a"; text_of_string "bbb"] []))
    as (H & _).
  - vm_compute. reflexivity.
  - unfold documentAfter, shown. rewrite H. reflexivity.
Defined.

(** X3.  A pad-to-max pass run on what a pad-to-max pass has left, with
    no change in between, leaves the editor and the recorded lengths as
    they are. *)
Theorem pad_pass_twice (track : Editor -> list EditOp -> list Selection)
    (uri : string) (e : Ext) (d : Doc) (sels : list Selection) :
  let pass := PadToMax.timerCallback (idealHost track) uri in
  let r1 := pass (shown d sels) e in
  let r2 := thenPass pass r1 in
  snd r2 = snd r1 /\ lastMax (fst r2) = lastMax (fst r1).
Proof.
  intros pass r1 r2. unfold r2, thenPass, r1, pass.
  rewrite pad_pass_ideal.
  destruct (Z.eqb_spec (maxLength d) (default 0 (lastMax e !! uri))) as [E|Hne];
    cbn [fst snd]; unfold shown.
  - rewrite gated_pass_result; [split; reflexivity|].
    cbn [document appendLine set_isApplyingEdits set_timers lastMax]. congruence.
  - rewrite gated_pass_result; [split; reflexivity|].
    cbn [document appendLine set_isApplyingEdits set_timers set_lastMax lastMax].
    rewrite lookup_insert_eq. cbn. rewrite maxLength_padded. reflexivity.
Qed.

(** X4.  The pass takes no notice of a batch the host refuses
    ([editor.edit] resolving to false): the document is unchanged, yet
    the length of the longest line is recorded for it, so that the next
    pass, on any host, leaves the lines unpadded. *)
Theorem pad_pass_refused_is_recorded (h : HostBehaviour) (uri : string) (e : Ext)
    (ed : Editor) :
  (forall ops, edit h ed ops = NotApplied) ->
  default 0 (lastMax e !! uri) <> maxLength (document ed) ->
  let r := PadToMax.timerCallback h uri (mkEnv false (Some ed)) e in
  snd r = mkEnv false (Some ed)
  /\ lastMax (fst r) !! uri = Some (maxLength (document ed))
  /\ forall h', snd (PadToMax.timerCallback h' uri (snd r) (fst r)) = snd r.
Proof.
  intros Hrefuse Hprev r.
  assert (Hr : r = (set_isApplyingEdits false
                      (appendLine ("Applied left padding to reach length "
                                   +:+ pretty (maxLength (document ed)) +:+ " for " +:+ uri)
                         (set_lastMax uri (maxLength (document ed))
                            (set_isApplyingEdits true (set_timers (delete uri (timers e)) e)))),
                    mkEnv false (Some ed))).
  { unfold r, PadToMax.timerCallback, tryCatchFinally, PadToMax.tryBody, bind, getEditor,
      getExt, modifyExt, awaitEdit.
    cbn [isClosed editor fst snd]. rewrite maxLenLoop_doc.
    change (lastMax (set_timers (delete uri (timers e)) e)) with (lastMax e).
    destruct (Z.eqb_spec (maxLength (document ed)) (default 0 (lastMax e !! uri)))
      as [E|_]; [congruence|].
    cbn [fst snd]. rewrite Hrefuse.
    destruct (changeEventWhileBusy h); reflexivity. }
  rewrite Hr. cbn [fst snd].
  split; [reflexivity|]. split; [cbn; apply lookup_insert_eq|].
  intros h'. rewrite gated_pass_result; [reflexivity|].
  cbn [appendLine set_isApplyingEdits set_lastMax lastMax].
  rewrite lookup_insert_eq. reflexivity.
Qed.

Lemma pad_pass_refused_is_recorded_witness :
  let r := PadToMax.timerCallback refusingHost "file:///a.txt"
             (mkEnv false (Some (mkEditor [text_of_string "a"; text_of_string "bbb"] [])))
             initialExt in
  documentAfter (PadToMax.timerCallback (idealHost (fun ed _ => selections ed))
                   "file:///a.txt" (snd r) (fst r))
  = [text_of_string "a"; text_of_string "bbb"].
Proof.
  intros r.
  destruct (pad_pass_refused_is_recorded refusingHost "file:///a.txt" initialExt
              (mkEditor [text_of_string "a"; text_of_string "bbb"] []))
    as (H1 & _ & H3).
  - reflexivity.
  - vm_compute. discriminate.
  - fold r in H1, H3. unfold documentAfter. rewrite H3, H1. reflexivity.
Defined.

End PadToMaxFacts.

(** ** The right-alignment passes: what they keep and what they issue *)

Module PassFacts.
Import Host AlignSpec PassSpec TextFacts BatchFacts RightAlignment.
Local Open Scope Z_scope.

Lemma leadingWhitespace_realign (m : Z) (text : Text) :
  leadingLength text <> Z.max 0 (m - contentLength text) ->
  leadingWhitespace (realign m text) = repeat_space (Z.max 0 (m - contentLength text)).
Proof.
  intros Hne. unfold realign.
  destruct (Z.eqb_spec (leadingLength text) (Z.max 0 (m - contentLength text)));
    [contradiction|].
  apply leadingWhitespace_repad.
Qed.

Lemma realign_at_width (m : Z) (text : Text) :
  leadingLength text = Z.max 0 (m - contentLength text) -> realign m text = text.
Proof. intros E. unfold realign. rewrite E, Z.eqb_refl. reflexivity. Qed.

(** X5.  A right-alignment pass whose batch is applied touches nothing
    but leading white space: the document keeps its number of lines,
    every line keeps its content and gets its desired leading width; a
    line already at that width is left as it is, white space included,
    and the leading white space of any other line becomes spaces only.
    The caret-preserving pass and the rerun-aware pass leave the same
    document. *)
Theorem alignment_keeps_content (track : Editor -> list EditOp -> list Selection)
    (uri : string) (e : Ext) (d : Doc) (sels : list Selection) :
  Forall (validSelection d) sels ->
  let after := documentAfter (CaretAlign.runAlignment (idealHost track) uri (shown d sels) e) in
  let after' := documentAfter (RerunAlign.runAlignment (idealHost track) uri (shown d sels) e) in
  after' = after
  /\ length after = length d
  /\ forall (i : nat) (text : Text), d !! i = Some text ->
       exists text',
         after !! i = Some text'
         /\ content text' = content text
         /\ leadingLength text' = desiredWidth d text
         /\ (leadingLength text = desiredWidth d text -> text' = text)
         /\ (leadingLength text <> desiredWidth d text ->
             leadingWhitespace text' = repeat_space (desiredWidth d text)).
Proof.
  intros Hv after after'. unfold after, after'.
  rewrite (caret_pass_document track uri e d sels Hv).
  rewrite (rerun_pass_document track uri e d sels).
  split; [reflexivity|]. split; [apply length_map|].
  intros i text Hi. exists (realign (maxContentLength d) text).
  rewrite list_lookup_fmap, Hi. split; [reflexivity|].
  split; [apply content_realign|].
  split; [apply leadingLength_realign|].
  split; [apply realign_at_width|apply leadingWhitespace_realign].
Qed.

Lemma alignment_keeps_content_witness :
  length (documentAfter (CaretAlign.runAlignment (idealHost (fun ed _ => selections ed))
                           "file:///a.txt"
                           (shown [9%N :: text_of_string "a"; text_of_string "bcd"]
                                  [mkSelection (mkPosition 0 1) (mkPosition 1 0)])
                           initialExt))
  = 2%nat.
Proof.
  destruct (alignment_keeps_content (fun ed _ => selections ed) "file:///a.txt" initialExt
              [9%N :: text_of_string "a"; text_of_string "bcd"]
              [mkSelection (mkPosition 0 1) (mkPosition 1 0)])
    as (_ & H & _).
  - repeat constructor; cbn; lia.
  - exact H.
Defined.

(** The second loop of the caret-preserving pass, edit by edit. *)
Lemma planLoop_edits (lines pre : Doc) (contents : list Z) (m : Z) (p : CaretAlign.Plan) :
  contents = map contentLength (pre ++ lines) ->
  let p' := CaretAlign.planLoop lines (Z.of_nat (length pre)) contents m p in
  CaretAlign.edits p'
  = CaretAlign.edits p ++ collect (paddingEdits m) lines (Z.of_nat (length pre))
  /\ (forall (j : nat) (text : Text), lines !! j = Some text ->
        CaretAlign.lineDelta p' !! Z.of_nat (length pre + j)
        = match deltaOf m text with
          | Some delta => Some delta
          | None => CaretAlign.lineDelta p !! Z.of_nat (length pre + j)
          end)
  /\ (forall k : Z, k < Z.of_nat (length pre) ->
        CaretAlign.lineDelta p' !! k = CaretAlign.lineDelta p !! k).
Proof.
  revert pre p. induction lines as [|t rest IH]; intros pre p Hc; cbn zeta.
  - simpl. rewrite app_nil_r. split; [reflexivity|]. split; [|reflexivity].
    intros j text Hj. discriminate.
  - cbn [CaretAlign.planLoop collect].
    assert (default 0 (contents !! Z.to_nat (Z.of_nat (length pre))) = contentLength t) as ->.
    { rewrite Nat2Z.id, Hc, map_app.
      rewrite lookup_app_r; rewrite length_map; [|lia].
      rewrite Nat.sub_diag. reflexivity. }
    set (w := Z.max 0 (m - contentLength t)).
    match goal with |- context [CaretAlign.planLoop rest _ contents m ?q] => set (p1 := q) end.
    assert (Hc' : contents = map contentLength ((pre ++ [t]) ++ rest)).
    { rewrite <- app_assoc. exact Hc. }
    destruct (IH (pre ++ [t]) p1 Hc') as (He & Hd & Hk).
    assert (Hlen : Z.of_nat (length (pre ++ [t])) = Z.of_nat (length pre) + 1).
    { rewrite length_app. simpl. lia. }
    rewrite Hlen in He, Hd, Hk.
    split; [|split].
    + rewrite He. unfold p1, paddingEdits. fold w.
      destruct (leadingLength t =? w); cbn [CaretAlign.edits app].
      * reflexivity.
      * rewrite <- app_assoc. reflexivity.
    + intros [|j] text Hj; simpl in Hj.
      * injection Hj as <-. rewrite Nat.add_0_r.
        rewrite Hk by lia. unfold p1, deltaOf. fold w.
        destruct (leadingLength t =? w); cbn [CaretAlign.lineDelta].
        -- reflexivity.
        -- apply lookup_insert_eq.
      * specialize (Hd j text Hj).
        replace (Z.of_nat (length (pre ++ [t]) + j)) with (Z.of_nat (length pre + S j)) in Hd
          by (rewrite length_app; simpl; lia).
        rewrite Hd. destruct (deltaOf m text); [reflexivity|].
        unfold p1. destruct (leadingLength t =? w); cbn [CaretAlign.lineDelta].
        -- reflexivity.
        -- apply lookup_insert_ne. lia.
    + intros k Hlt. rewrite Hk by lia.
      unfold p1. destruct (leadingLength t =? w); cbn [CaretAlign.lineDelta].
      * reflexivity.
      * apply lookup_insert_ne. lia.
Qed.

Lemma computePlan_edits (d : Doc) :
  CaretAlign.edits (fst (CaretAlign.computePlan d))
  = collect (paddingEdits (maxContentLength d)) d 0
  /\ forall (i : nat) (text : Text), d !! i = Some text ->
       CaretAlign.lineDelta (fst (CaretAlign.computePlan d)) !! Z.of_nat i
       = deltaOf (maxContentLength d) text.
Proof.
  unfold CaretAlign.computePlan.
  rewrite CaretAlignFacts.caret_measureLoop_spec by lia. cbn [fst snd app].
  rewrite Z.max_r by apply maxContentLength_nonneg.
  destruct (planLoop_edits d [] (map contentLength d) (maxContentLength d)
              CaretAlign.emptyPlan eq_refl) as (He & Hd & _).
  split; [exact He|].
  intros i text Hi. specialize (Hd i text Hi). cbn [length Nat.add] in Hd.
  change (Z.of_nat 0) with 0 in Hd.
  rewrite Hd. destruct (deltaOf (maxContentLength d) text); reflexivity.
Qed.

Lemma paddingEdits_lines (m : Z) (lines : Doc) (i : Z) :
  Forall (fun l => i <= l) (map CaretAlign.edit_line (collect (paddingEdits m) lines i))
  /\ StronglySorted Z.lt (map CaretAlign.edit_line (collect (paddingEdits m) lines i)).
Proof.
  revert i. induction lines as [|t rest IH]; intros i; cbn [collect].
  - split; constructor.
  - destruct (IH (i + 1)) as [Hge Hs].
    unfold paddingEdits at 1 3.
    destruct (leadingLength t =? Z.max 0 (m - contentLength t)); cbn [app map].
    + split; [|exact Hs]. eapply Forall_impl; [exact Hge|]. cbn. intros. lia.
    + cbn [CaretAlign.edit_line]. split.
      * constructor; [lia|]. eapply Forall_impl; [exact Hge|]. cbn. intros. lia.
      * constructor; [exact Hs|]. eapply Forall_impl; [exact Hge|]. cbn. intros. lia.
Qed.

(** X6.  The batch of the caret-preserving pass holds exactly one edit
    for every line that is not at its desired width and none for the
    others, in the order of the lines; the edit of a line replaces the
    span of its leading white space, from column 0 to its leading
    width, by as many spaces as its desired width.  [lineDelta] holds
    the change of width of exactly those lines. *)
Theorem plan_edits_leading_span (d : Doc) :
  let plan := fst (CaretAlign.computePlan d) in
  (forall e,
     e ∈ CaretAlign.edits plan
     <-> exists (i : nat) (text : Text),
           d !! i = Some text
           /\ leadingLength text <> desiredWidth d text
           /\ e = CaretAlign.mkPaddingEdit (Z.of_nat i)
                    (mkRange (mkPosition (Z.of_nat i) 0)
                             (mkPosition (Z.of_nat i) (leadingLength text)))
                    (repeat_space (desiredWidth d text)))
  /\ StronglySorted Z.lt (map CaretAlign.edit_line (CaretAlign.edits plan))
  /\ (forall (i : nat) (text : Text), d !! i = Some text ->
        CaretAlign.lineDelta plan !! Z.of_nat i
        = if decide (leadingLength text = desiredWidth d text) then None
          else Some (desiredWidth d text - leadingLength text)).
Proof.
  intros plan. unfold plan.
  destruct (computePlan_edits d) as [He Hd]. rewrite He.
  split; [|split].
  - intros e. rewrite elem_of_collect. split.
    + intros (j & text & Hj & Hin). exists j, text. split; [exact Hj|].
      unfold paddingEdits in Hin. fold (desiredWidth d text) in Hin.
      destruct (Z.eqb_spec (leadingLength text) (desiredWidth d text)) as [|Hne];
        [inversion Hin|].
      apply list_elem_of_singleton in Hin. split; [exact Hne|exact Hin].
    + intros (i & text & Hi & Hne & ->). exists i, text. split; [exact Hi|].
      unfold paddingEdits. fold (desiredWidth d text).
      destruct (Z.eqb_spec (leadingLength text) (desiredWidth d text)); [contradiction|].
      cbn. left.
  - apply paddingEdits_lines.
  - intros i text Hi. rewrite (Hd i text Hi). unfold deltaOf.
    fold (desiredWidth d text).
    destruct (Z.eqb_spec (leadingLength text) (desiredWidth d text));
      destruct (decide (leadingLength text = desiredWidth d text)); try contradiction;
      reflexivity.
Qed.

Lemma movedCaret_anchored (d : Doc) (p : Position) :
  validPosition d p ->
  anchored d (map (realign (maxContentLength d)) d) p
    (movedCaret d (map (realign (maxContentLength d)) d)
       (CaretAlign.desiredLeadingByLine (fst (CaretAlign.computePlan d))) p).
Proof.
  intros Hp.
  destruct (movedCaret_rule d p Hp) as (Hline & oldText & newText & Ho & Hn & Hw & Hc).
  split; [exact Hline|].
  assert (Hlook : d !! Z.to_nat (line p) = Some oldText).
  { unfold lineAt in Ho. destruct (line p <? 0); [discriminate|exact Ho]. }
  assert (newText = realign (maxContentLength d) oldText) as ->.
  { unfold lineAt in Hn. destruct (line p <? 0); [discriminate|].
    rewrite list_lookup_fmap, Hlook in Hn. cbn in Hn. congruence. }
  exists oldText, (realign (maxContentLength d) oldText).
  split; [exact Ho|]. split; [exact Hn|]. split; [apply content_realign|].
  pose proof (text_length_realign (maxContentLength d) oldText) as Hlen.
  fold (desiredWidth d oldText) in Hlen.
  pose proof (contentLength_nonneg oldText) as Hc0.
  pose proof (leadingLength_nonneg oldText) as Hl0.
  assert (Hd0 : 0 <= desiredWidth d oldText) by (unfold desiredWidth; lia).
  rewrite Hc, Hw, Hlen. unfold contentOffset, contentLength in *.
  split; intros; lia.
Qed.

(** X7.  When the caret-preserving pass rewrites leading white space,
    every endpoint of every selection stays anchored to the content of
    its line: an endpoint on the content, or at the end of the line, is
    put at the same offset from the start of the content, within the
    line (the clamp to the line length is never reached); an endpoint
    inside the leading white space is put at the start of the content. *)
Theorem caret_stays_on_content (track : Editor -> list EditOp -> list Selection)
    (uri : string) (e : Ext) (d : Doc) (sels : list Selection)
    (idx : nat) (s : Selection) :
  Forall (validSelection d) sels ->
  (exists text, text ∈ d /\ leadingLength text <> desiredWidth d text) ->
  sels !! idx = Some s ->
  let r := CaretAlign.runAlignment (idealHost track) uri (shown d sels) e in
  exists s',
    selectionsAfter r !! idx = Some s'
    /\ anchored d (documentAfter r) (sel_start s) (sel_start s')
    /\ anchored d (documentAfter r) (sel_end s) (sel_end s').
Proof.
  intros Hv Hne Hs r. unfold r.
  rewrite (caret_pass_selections track uri e d sels Hv Hne).
  rewrite (caret_pass_document track uri e d sels Hv).
  rewrite list_lookup_fmap, Hs. cbn [fmap option_fmap option_map].
  eexists. split; [reflexivity|].
  rewrite Forall_lookup in Hv. destruct (Hv idx s Hs) as [Hstart Hend].
  split; apply movedCaret_anchored; assumption.
Qed.

Lemma caret_stays_on_content_witness :
  exists s',
    selectionsAfter (CaretAlign.runAlignment (idealHost (fun ed _ => selections ed)) "file:///a.txt"
                       (shown [text_of_string "  ab"; text_of_string "cdefgh"]
                              [mkSelection (mkPosition 0 1) (mkPosition 0 3)])
                       initialExt) !! 0%nat = Some s'
    /\ character (sel_start s') = 4 /\ character (sel_end s') = 5.
Proof.
  destruct (caret_stays_on_content (fun ed _ => selections ed) "file:///a.txt" initialExt
              [text_of_string "  ab"; text_of_string "cdefgh"]
              [mkSelection (mkPosition 0 1) (mkPosition 0 3)] 0
              (mkSelection (mkPosition 0 1) (mkPosition 0 3)))
    as (s' & Hs' & (_ & t1 & t1' & Ht1 & Ht1' & _ & _ & Hin) & (_ & t2 & t2' & Ht2 & Ht2' & _ & Hon & _)).
  - repeat constructor; cbn; lia.
  - exists (text_of_string "  ab"). split; [left|]. vm_compute. discriminate.
  - reflexivity.
  - exists s'. split; [exact Hs'|].
    vm_compute in Ht1, Ht1', Ht2, Ht2'.
    injection Ht1 as <-. injection Ht1' as <-. injection Ht2 as <-. injection Ht2' as <-.
    split.
    + apply Hin. vm_compute. reflexivity.
    + destruct Hon as [Hoff _]; [vm_compute; split; discriminate|].
      cbn [sel_end character] in Hoff.
      change (leadingLength [32%N; 32%N; 32%N; 32%N; 97%N; 98%N]) with 4 in Hoff.
      change (leadingLength [32%N; 32%N; 97%N; 98%N]) with 2 in Hoff.
      lia.
Defined.

(** The [try] block when the batch is applied and the assignment of
    the selections throws. *)
Lemma caret_tryBody_selectionsThrow (track : Editor -> list EditOp -> list Selection)
    (err uri : string) (e : Ext) (d : Doc) (sels : list Selection) :
  Forall (validSelection d) sels ->
  (exists text, text ∈ d /\ leadingLength text <> desiredWidth d text) ->
  let m := maxContentLength d in
  let plan := fst (CaretAlign.computePlan d) in
  CaretAlign.tryBody (selectionsThrow track err) uri (e, mkEditor d sels)
  = ((appendLine ("Applied " +:+ pretty (Z.of_nat (length (CaretAlign.edits plan)))
                  +:+ " padding edits with cursor preservation to align to "
                  +:+ pretty m +:+ " for " +:+ uri)
        (set_lastMax uri m
           (appendLine ("Failed to restore selections: " +:+ err)
              (set_isApplyingEdits true e))),
      mkEditor (map (realign m) d)
               (track (mkEditor d sels) (map CaretAlign.toOp (CaretAlign.edits plan)))),
     Ok tt).
Proof.
  intros Hv (text & Hin & Hne) m plan.
  pose proof (CaretAlignFacts.computePlan_spec d) as (Hm & He & _).
  pose proof (CaretAlignFacts.applyOps_plan d) as Happ.
  pose proof (batch_nonempty d text Hin Hne) as Hb.
  rewrite <- He, length_map in Hb.
  unfold CaretAlign.tryBody, bind, getEditor. cbn [fst snd document selections].
  fold plan in Happ, Hb. fold m in Hm, Happ.
  destruct (CaretAlign.computePlan d) as [plan0 m0] eqn:E. cbn [fst snd] in *.
  subst plan m0. rewrite Hb.
  unfold lift. rewrite (CaretAlignFacts.captureOffsets_valid d sels [] Hv). cbn [app].
  unfold modifyExt, awaitEdit.
  cbn [fst snd selectionsThrow idealHost edit changeEventWhileBusy].
  cbn [CaretAlign.onDidChangeTextDocument set_isApplyingEdits isApplyingEdits
       document selections].
  rewrite Happ.
  pose proof (CaretAlignFacts.restoreLoop_valid d (map (realign m) d)
                (CaretAlign.desiredLeadingByLine plan0) sels [] []
                (CaretAlignFacts.validSelection_realigned m d sels Hv)) as Hr.
  cbn [app length] in Hr. rewrite Hr.
  reflexivity.
Qed.

(** X8.  A failure to restore the selections does not undo or block the
    text edit: when the batch is applied and the assignment of
    [editor.selections] throws, the document is right-aligned all the
    same, the selections are those the editor was left with, the
    failure is logged on its own before the pass reports its edits, and
    the maximum is recorded and the guard released as usual. *)
Theorem restore_failure_keeps_edit (track : Editor -> list EditOp -> list Selection)
    (err uri : string) (e : Ext) (d : Doc) (sels : list Selection) :
  Forall (validSelection d) sels ->
  (exists text, text ∈ d /\ leadingLength text <> desiredWidth d text) ->
  let r := CaretAlign.runAlignment (selectionsThrow track err) uri (shown d sels) e in
  let plan := fst (CaretAlign.computePlan d) in
  documentAfter r
  = documentAfter (CaretAlign.runAlignment (idealHost track) uri (shown d sels) e)
  /\ selectionsAfter r
     = track (mkEditor d sels) (map CaretAlign.toOp (CaretAlign.edits plan))
  /\ channel (fst r)
     = channel e
       ++ ["Failed to restore selections: " +:+ err;
           "Applied " +:+ pretty (Z.of_nat (length (CaretAlign.edits plan)))
           +:+ " padding edits with cursor preservation to align to "
           +:+ pretty (maxContentLength d) +:+ " for " +:+ uri]
  /\ lastMax (fst r) !! uri = Some (maxContentLength d)
  /\ isApplyingEdits (fst r) = false.
Proof.
  intros Hv Hne r plan. unfold r.
  rewrite (caret_pass_document track uri e d sels Hv).
  unfold CaretAlign.runAlignment, shown, tryCatchFinally. cbn [isClosed editor].
  rewrite (caret_tryBody_selectionsThrow track err uri _ d sels Hv Hne).
  unfold documentAfter, selectionsAfter. cbn [fst snd editor document selections].
  split; [reflexivity|]. split; [reflexivity|]. split; [|split].
  - cbn [channel appendLine set_lastMax set_isApplyingEdits set_timers].
    rewrite <- app_assoc. reflexivity.
  - cbn. apply lookup_insert_eq.
  - reflexivity.
Qed.

Lemma restore_failure_keeps_edit_witness :
  documentAfter (CaretAlign.runAlignment (selectionsThrow (fun ed _ => selections ed) "disposed")
                   "file:///a.txt"
                   (shown [text_of_string "a"; text_of_string "bcd"]
                          [mkSelection (mkPosition 0 1) (mkPosition 0 1)])
                   initialExt)
  = [text_of_string "  a"; text_of_string "bcd"].
Proof.
  destruct (restore_failure_keeps_edit (fun ed _ => selections ed) "disposed" "file:///a.txt"
              initialExt [text_of_string "a"; text_of_string "bcd"]
              [mkSelection (mkPosition 0 1) (mkPosition 0 1)])
    as (H & _).
  - repeat constructor; cbn; lia.
  - exists (text_of_string "a"). split; [left|]. vm_compute. discriminate.
  - rewrite H. vm_compute. reflexivity.
Defined.

Lemma captureOffsets_stale (d : Doc) (sels : list Selection) (acc : list CaretAlign.Offsets) :
  Exists (fun s => ~ validSelection d s) sels ->
  CaretAlign.captureOffsets d sels acc = Throw CaretAlign.illegalLine.
Proof.
  intros Hex. revert acc. induction sels as [|s rest IH]; intros acc; [inversion Hex|].
  cbn [CaretAlign.captureOffsets].
  destruct (lineAt d (line (sel_start s))) as [ts|] eqn:Es; [|reflexivity].
  destruct (lineAt d (line (sel_end s))) as [te|] eqn:Ee; [|reflexivity].
  apply IH. apply Exists_cons in Hex as [Hbad|Hrest]; [exfalso|exact Hrest].
  apply Hbad. unfold lineAt in Es, Ee.
  destruct (Z.ltb_spec (line (sel_start s)) 0); [discriminate|].
  destruct (Z.ltb_spec (line (sel_end s)) 0); [discriminate|].
  apply lookup_lt_Some in Es, Ee.
  split; unfold validPosition; lia.
Qed.

(** X9.  When a line is away from its desired width and some selection
    lies on a line the document does not have, the caret-preserving
    pass throws before it sets the guard or issues its batch, whatever
    the host: the editor is left as it is, nothing is recorded, and the
    channel receives the prefix of the outer [catch] followed by
    [String(err)] of the error of [lineAt], that is the line
    [Error during padding: Error: Illegal value for `line`]. *)
Theorem stale_selection_aborts (h : HostBehaviour) (uri : string) (e : Ext) (d : Doc)
    (sels : list Selection) :
  (exists text, text ∈ d /\ leadingLength text <> desiredWidth d text) ->
  Exists (fun s => ~ validSelection d s) sels ->
  let r := CaretAlign.runAlignment h uri (shown d sels) e in
  snd r = shown d sels
  /\ channel (fst r) = channel e ++ ["Error during padding: Error: Illegal value for `line`"]
  /\ lastMax (fst r) = lastMax e
  /\ isApplyingEdits (fst r) = false.
Proof.
  intros (text & Hin & Hne) Hex r. unfold r.
  pose proof (CaretAlignFacts.computePlan_spec d) as (_ & He & _).
  pose proof (batch_nonempty d text Hin Hne) as Hb.
  rewrite <- He, length_map in Hb.
  unfold CaretAlign.runAlignment, shown, tryCatchFinally, CaretAlign.tryBody, bind, getEditor.
  cbn [isClosed editor fst snd document selections].
  destruct (CaretAlign.computePlan d) as [plan0 m0] eqn:E. cbn [fst snd] in *.
  rewrite Hb. unfold lift. rewrite (captureOffsets_stale d sels [] Hex).
  repeat split.
Qed.

Lemma stale_selection_aborts_witness :
  documentAfter (CaretAlign.runAlignment (idealHost (fun ed _ => selections ed)) "file:///a.txt"
                   (shown [text_of_string "a"; text_of_string "bcd"]
                          [mkSelection (mkPosition 5 0) (mkPosition 5 0)])
                   initialExt)
  = [text_of_string "a"; text_of_string "bcd"].
Proof.
  destruct (stale_selection_aborts (idealHost (fun ed _ => selections ed)) "file:///a.txt"
              initialExt [text_of_string "a"; text_of_string "bcd"]
              [mkSelection (mkPosition 5 0) (mkPosition 5 0)])
    as (H & _).
  - exists (text_of_string "a"). split; [left|]. vm_compute. discriminate.
  - left. intros [[_ Hlt] _]. cbn in Hlt. lia.
  - unfold documentAfter. rewrite H. reflexivity.
Defined.

(** A right-aligned document has no line away from its desired width. *)
Lemma realigned_no_batch (d : Doc) :
  collect (realignOps (maxContentLength (map (realign (maxContentLength d)) d)))
          (map (realign (maxContentLength d)) d) 0 = [].
Proof.
  apply collect_nil. intros j text Hin. apply realignOps_realigned, Hin.
Qed.

Lemma movedSelection_valid (old new : Doc) (desired : gmap Z Z) (sels : list Selection) :
  Forall (validSelection new) sels ->
  Forall (validSelection new) (map (movedSelection old new desired) sels).
Proof.
  intros Hv. apply Forall_fmap. eapply Forall_impl; [exact Hv|].
  intros s Hs. exact Hs.
Qed.

(** What the caret-preserving pass leaves on a host that applies its
    batch: the right-aligned document, with selections on its lines. *)
Lemma caret_pass_leaves (track : Editor -> list EditOp -> list Selection)
    (uri : string) (e : Ext) (d : Doc) (sels : list Selection) :
  Forall (validSelection d) sels ->
  exists e' sels',
    CaretAlign.runAlignment (idealHost track) uri (shown d sels) e
    = (e', shown (map (realign (maxContentLength d)) d) sels')
    /\ Forall (validSelection (map (realign (maxContentLength d)) d)) sels'.
Proof.
  intros Hv.
  pose proof (CaretAlignFacts.validSelection_realigned (maxContentLength d) d sels Hv) as Hv'.
  unfold CaretAlign.runAlignment, shown, tryCatchFinally. cbn [isClosed editor].
  rewrite (CaretAlignFacts.caret_tryBody_ideal track uri _ d sels Hv).
  destruct (Nat.eqb (length (CaretAlign.edits (fst (CaretAlign.computePlan d)))) 0) eqn:El.
  - eexists _, sels. split; [|exact Hv'].
    rewrite <- CaretAlignFacts.applyOps_plan.
    apply Nat.eqb_eq, nil_length_inv in El. rewrite El. reflexivity.
  - eexists _, _. split; [reflexivity|].
    apply movedSelection_valid, Hv'.
Qed.

(** X10.  The caret-preserving pass run on what it has left, with no
    change in between, leaves the editor as it is: the document and the
    selections alike. *)
Theorem caret_pass_twice (track : Editor -> list EditOp -> list Selection)
    (uri : string) (e : Ext) (d : Doc) (sels : list Selection) :
  Forall (validSelection d) sels ->
  let pass := CaretAlign.runAlignment (idealHost track) uri in
  let r1 := pass (shown d sels) e in
  let r2 := thenPass pass r1 in
  snd r2 = snd r1.
Proof.
  intros Hv pass r1 r2. unfold r2, thenPass, r1, pass.
  destruct (caret_pass_leaves track uri e d sels Hv) as (e' & sels' & -> & Hv').
  cbn [fst snd].
  unfold CaretAlign.runAlignment, shown, tryCatchFinally.
  cbn [isClosed editor].
  rewrite (CaretAlignFacts.caret_tryBody_ideal track uri _ _ sels' Hv').
  destruct (CaretAlignFacts.computePlan_spec (map (realign (maxContentLength d)) d))
    as (_ & He & _).
  rewrite realigned_no_batch in He. apply map_eq_nil in He. rewrite He.
  reflexivity.
Qed.

Lemma caret_pass_twice_witness :
  let pass := CaretAlign.runAlignment (idealHost (fun ed _ => selections ed)) "file:///a.txt" in
  let r1 := pass (shown [text_of_string "a"; text_of_string "bcd"]
                        [mkSelection (mkPosition 0 1) (mkPosition 1 2)]) initialExt in
  selectionsAfter (thenPass pass r1) = selectionsAfter r1.
Proof.
  intros pass r1. subst r1 pass. unfold selectionsAfter.
  rewrite (caret_pass_twice (fun ed _ => selections ed) "file:///a.txt" initialExt
             [text_of_string "a"; text_of_string "bcd"]
             [mkSelection (mkPosition 0 1) (mkPosition 1 2)]).
  - reflexivity.
  - repeat constructor; cbn; lia.
Defined.

(** The rerun-aware pass on a host that applies its batch. *)
Lemma rerun_pass_ideal (track : Editor -> list EditOp -> list Selection)
    (uri : string) (e : Ext) (d : Doc) (sels : list Selection) :
  let e1 := set_timers (delete uri (timers e)) e in
  let m := maxContentLength d in
  let ops := collect (realignOps m) d 0 in
  RerunAlign.runAlignment (idealHost track) uri (shown d sels) e
  = if Nat.eqb (length ops) 0
    then (RerunAlign.finallyBlock uri (set_isApplyingEdits false (set_isApplyingEdits true e1)),
          shown d sels)
    else (RerunAlign.finallyBlock uri (set_needsRerun true (set_isApplyingEdits true e1)),
          shown (map (realign m) d) (track (mkEditor d sels) ops)).
Proof.
  intros e1 m ops.
  unfold RerunAlign.runAlignment, shown, tryCatchFinally. cbn [isClosed editor].
  rewrite RerunAlignFacts.rerun_tryBody_ideal. cbn [document]. fold m ops e1.
  destruct (Nat.eqb (length ops) 0); reflexivity.
Qed.

(** X11.  The rerun loop of the rerun-aware pass settles.  A pass whose
    batch is applied sees its own change event while busy and schedules
    one follow-up pass at once (delay 0); a pass with no batch schedules
    one only if a rerun was already pending.  Either way the pending
    flag is consumed, and the follow-up pass finds nothing to do: it
    leaves the editor as it is, no timer pending for the document, no
    rerun pending and the guard released. *)
Theorem rerun_settles (track : Editor -> list EditOp -> list Selection)
    (uri : string) (e : Ext) (d : Doc) (sels : list Selection) :
  let pass := RerunAlign.runAlignment (idealHost track) uri in
  let r1 := pass (shown d sels) e in
  let r2 := thenPass pass r1 in
  needsRerun (fst r1) = false
  /\ ((exists text, text ∈ d /\ leadingLength text <> desiredWidth d text) ->
      timers (fst r1) !! uri = Some 0)
  /\ ((forall text, text ∈ d -> leadingLength text = desiredWidth d text) ->
      timers (fst r1) !! uri = if needsRerun e then Some 0 else None)
  /\ snd r2 = snd r1
  /\ timers (fst r2) !! uri = None
  /\ needsRerun (fst r2) = false
  /\ isApplyingEdits (fst r2) = false.
Proof.
  intros pass r1 r2. unfold r2, thenPass, r1, pass.
  rewrite rerun_pass_ideal.
  set (m := maxContentLength d). set (ops := collect (realignOps m) d 0).
  assert (Hsecond : forall d0 e0 sels0,
            collect (realignOps (maxContentLength d0)) d0 0 = [] ->
            RerunAlign.runAlignment (idealHost track) uri (shown d0 sels0) e0
            = (RerunAlign.finallyBlock uri
                 (set_isApplyingEdits false
                    (set_isApplyingEdits true (set_timers (delete uri (timers e0)) e0))),
               shown d0 sels0)).
  { intros d0 e0 sels0 E. rewrite rerun_pass_ideal, E. reflexivity. }
  assert (Haway : (exists text, text ∈ d /\ leadingLength text <> desiredWidth d text) ->
                  Nat.eqb (length ops) 0 = false).
  { intros (text & Hin & Hne). exact (batch_nonempty d text Hin Hne). }
  assert (Hall : (forall text, text ∈ d -> leadingLength text = desiredWidth d text) ->
                 ops = []).
  { intros H. apply collect_nil. intros j text Hin. unfold realignOps.
    fold (desiredWidth d text). rewrite (H text Hin), Z.eqb_refl. reflexivity. }
  destruct e as [flag rerun tm lm ch].
  destruct (Nat.eqb (length ops) 0) eqn:El; cbn [fst snd].
  - apply Nat.eqb_eq, nil_length_inv in El.
    rewrite (Hsecond d _ _ El). cbn [fst snd].
    unfold RerunAlign.finallyBlock. cbv zeta.
    destruct rerun;
      cbn [set_isApplyingEdits set_timers set_needsRerun needsRerun timers isApplyingEdits];
      (split; [reflexivity|]);
      (split; [intros Hex; specialize (Haway Hex); discriminate|]);
      (split; [intros _; first [apply lookup_insert_eq|apply lookup_delete_eq]|]);
      (split; [reflexivity|]);
      (split; [apply lookup_delete_eq|]);
      split; reflexivity.
  - rewrite (Hsecond (map (realign m) d) _ _ (realigned_no_batch d)). cbn [fst snd].
    unfold RerunAlign.finallyBlock. cbv zeta.
    cbn [set_isApplyingEdits set_timers set_needsRerun needsRerun timers isApplyingEdits].
    split; [reflexivity|].
    split; [intros _; apply lookup_insert_eq|].
    split; [intros H; rewrite (Hall H) in El; discriminate|].
    split; [reflexivity|].
    split; [apply lookup_delete_eq|].
    split; reflexivity.
Qed.

Ltac frame_goal :=
  cbn [fst snd timers lastMax channel needsRerun isApplyingEdits appendLine
       set_isApplyingEdits set_timers set_lastMax set_needsRerun];
  repeat split;
  try reflexivity;
  try (intros; rewrite ?lookup_insert_ne, ?lookup_delete_ne by congruence; reflexivity);
  try (apply lookup_delete_eq);
  try (rewrite <- ?app_assoc; apply prefix_app_r; reflexivity);
  try (apply prefix_app_r; reflexivity).

Lemma pad_pass_frame (h : HostBehaviour) (uri : string) (env : Env) (e : Ext) :
  let r := PadToMax.timerCallback h uri env e in
  keepsOthers uri e (fst r)
  /\ timers (fst r) !! uri = None
  /\ needsRerun (fst r) = needsRerun e.
Proof.
  destruct e as [flag rerun tm lm ch]. destruct env as [closed [ed|]].
  all: unfold keepsOthers, PadToMax.timerCallback, tryCatchFinally, PadToMax.tryBody,
         bind, getEditor, getExt, modifyExt, awaitEdit,
         PadToMax.onDidChangeTextDocument.
  all: cbn [isClosed editor fst snd timers lastMax set_timers set_isApplyingEdits
            isApplyingEdits].
  all: destruct closed; [frame_goal|].
  all: try (destruct (PadToMax.maxLenLoop (document ed) 0 =? default 0 (lm !! uri));
            [frame_goal|];
            cbn [fst snd set_isApplyingEdits isApplyingEdits];
            destruct (changeEventWhileBusy h);
            destruct (edit h ed _); frame_goal).
  frame_goal.
Qed.

Lemma caret_pass_frame (h : HostBehaviour) (uri : string) (env : Env) (e : Ext) :
  let r := CaretAlign.runAlignment h uri env e in
  keepsOthers uri e (fst r)
  /\ timers (fst r) !! uri = None
  /\ needsRerun (fst r) = needsRerun e.
Proof.
  destruct e as [flag rerun tm lm ch]. destruct env as [closed [ed|]].
  all: unfold keepsOthers, CaretAlign.runAlignment, tryCatchFinally, CaretAlign.tryBody,
         bind, getEditor, modifyExt, awaitEdit, lift, trySetSelections,
         CaretAlign.onDidChangeTextDocument.
  all: cbn [isClosed editor fst snd timers lastMax set_timers set_isApplyingEdits
            isApplyingEdits].
  all: destruct closed; [frame_goal|].
  2: frame_goal.
  destruct (CaretAlign.computePlan (document ed)) as [plan m].
  destruct (Nat.eqb (length (CaretAlign.edits plan)) 0); [frame_goal|].
  destruct (CaretAlign.captureOffsets (document ed) (selections ed) []) as [offsets|err];
    [|frame_goal].
  cbn [fst snd set_isApplyingEdits isApplyingEdits].
  destruct (changeEventWhileBusy h);
    destruct (edit h ed (map CaretAlign.toOp (CaretAlign.edits plan))) as [ed'| |err];
    cbn [fst snd].
  all: try match goal with
           | |- context [CaretAlign.restoreLoop ?a ?b ?c ?d ?i ?acc] =>
               destruct (CaretAlign.restoreLoop a b c d i acc) as [newSelections|err']
           end.
  all: try match goal with
           | |- context [setSelections ?hh ?x] => destruct (setSelections hh x)
           end.
  all: frame_goal.
Qed.

Lemma rerun_pass_frame (h : HostBehaviour) (uri : string) (env : Env) (e : Ext) :
  let r := RerunAlign.runAlignment h uri env e in
  keepsOthers uri e (fst r)
  /\ lastMax (fst r) = lastMax e.
Proof.
  destruct e as [flag rerun tm lm ch]. destruct env as [closed [ed|]].
  all: unfold keepsOthers, RerunAlign.runAlignment, tryCatchFinally, RerunAlign.tryBody,
         RerunAlign.finallyBlock, bind, getEditor, modifyExt, awaitEdit, lift, ret,
         RerunAlign.onDidChangeTextDocument.
  all: cbn [isClosed editor fst snd timers lastMax set_timers set_isApplyingEdits
            isApplyingEdits].
  all: destruct closed; [frame_goal|].
  2: frame_goal.
  destruct (RerunAlign.computeEdits (document ed)) as [edits|err].
  2: { cbv zeta. cbn [fst snd needsRerun appendLine set_isApplyingEdits].
       destruct rerun; frame_goal. }
  destruct (Nat.eqb (length edits) 0).
  { cbv zeta. cbn [fst snd needsRerun set_isApplyingEdits]. destruct rerun; frame_goal. }
  cbn [fst snd set_isApplyingEdits isApplyingEdits].
  destruct (changeEventWhileBusy h);
    destruct (edit h ed (map RerunAlign.toOp edits)) as [ed'| |err];
    cbv zeta;
    cbn [fst snd needsRerun appendLine set_isApplyingEdits set_needsRerun];
    try (destruct rerun); frame_goal.
Qed.

(** X12.  A pass for one document keeps to it, whatever the host and
    on every exit path: the timers and the recorded maxima of other
    documents are untouched, and the output channel is only appended
    to.  The pad-to-max pass and the caret-preserving pass leave no
    timer pending for their document and never set the rerun flag; the
    rerun-aware pass records no maximum at all. *)
Theorem pass_keeps_to_its_document (h : HostBehaviour) (uri : string) (env : Env) (e : Ext) :
  let rp := PadToMax.timerCallback h uri env e in
  let rc := CaretAlign.runAlignment h uri env e in
  let rr := RerunAlign.runAlignment h uri env e in
  keepsOthers uri e (fst rp) /\ keepsOthers uri e (fst rc) /\ keepsOthers uri e (fst rr)
  /\ timers (fst rp) !! uri = None /\ timers (fst rc) !! uri = None
  /\ needsRerun (fst rp) = needsRerun e /\ needsRerun (fst rc) = needsRerun e
  /\ lastMax (fst rr) = lastMax e.
Proof.
  intros rp rc rr.
  destruct (pad_pass_frame h uri env e) as (Hp1 & Hp2 & Hp3).
  destruct (caret_pass_frame h uri env e) as (Hc1 & Hc2 & Hc3).
  destruct (rerun_pass_frame h uri env e) as (Hr1 & Hr2).
  split; [exact Hp1|]. split; [exact Hc1|]. split; [exact Hr1|].
  split; [exact Hp2|]. split; [exact Hc2|].
  split; [exact Hp3|]. split; [exact Hc3|exact Hr2].
Qed.

End PassFacts.

(** ** The commands and the live listener of the command file *)

Module LiveFacts.
Import Host AlignSpec PassSpec TextFacts BatchFacts Commands CommandFacts PadToMaxFacts.
Local Open Scope Z_scope.

(** X13.  The align command leaves every line at the length of the
    longest line, each line being its old text behind the spaces it
    lacked, and keeps the number of lines; run again at once it changes
    nothing. *)
Theorem align_equalises_lengths (track : Editor -> list EditOp -> list Selection)
    (ed : Editor) :
  let d := document ed in
  let aligned := afterCommand track alignDocument ed in
  length (document aligned) = length d
  /\ (forall (i : nat) (text : Text), d !! i = Some text ->
        exists pad : nat,
          document aligned !! i = Some (replicate pad SPACE ++ text)
          /\ Z.of_nat pad + text_length text = maxLength d)
  /\ document (afterCommand track alignDocument aligned) = document aligned.
Proof.
  intros d aligned. unfold aligned. rewrite !alignDocument_ideal. fold d.
  split; [apply length_map|]. split.
  - intros i text Hi. exists (Z.to_nat (padOf d text)).
    rewrite list_lookup_fmap, Hi. cbn [fmap option_fmap option_map].
    rewrite padLine_spaces. split; [reflexivity|].
    rewrite padOf_maxLength.
    pose proof (maxLength_upper d text (list_elem_of_lookup_2 _ _ _ Hi)). lia.
  - rewrite maxLength_padded. apply map_fixed.
    intros text Hin. apply list_elem_of_fmap in Hin as (t & -> & Ht).
    unfold padLine at 1. rewrite (padLine_length d t Ht), Z.sub_diag. reflexivity.
Qed.

(** X14.  The live listener of the command file, the align command and
    the pad-to-max pass of [src/extension.ts] (when its gate lets it
    run) leave the same document on a host that applies their batch; the
    listener ends with its guard released and nothing sent to the
    console. *)
Theorem padding_paths_agree (track : Editor -> list EditOp -> list Selection)
    (uri : string) (e : Ext) (ed : Editor) (c : LiveAlign.Closure) :
  LiveAlign.isApplyingEdits c = false ->
  let aligned := document (afterCommand track alignDocument ed) in
  let r := LiveAlign.changeListener (idealHost track) (Some ed) c in
  (exists ed', snd r = Some ed' /\ document ed' = aligned)
  /\ LiveAlign.isApplyingEdits (fst r) = false
  /\ LiveAlign.console (fst r) = LiveAlign.console c
  /\ (default 0 (lastMax e !! uri) <> maxLength (document ed) ->
      documentAfter (PadToMax.timerCallback (idealHost track) uri
                       (shown (document ed) (selections ed)) e)
      = aligned).
Proof.
  intros Hidle aligned r. unfold aligned, r. rewrite alignDocument_ideal.
  unfold LiveAlign.changeListener. rewrite Hidle.
  rewrite live_maxLengthLoop_spec by lia.
  rewrite (Z.max_r 0 (maxLength (document ed))) by apply maxLength_nonneg.
  split; [|split; [|split]].
  - destruct (LiveAlign.needEditLoop (document ed) (maxLength (document ed))) eqn:En;
      cbn [negb idealHost edit fst snd].
    + eexists. split; [reflexivity|]. cbn [document].
      rewrite live_padLoop_collect. apply applyOps_collect_doc, align_lineEdit.
    + exists ed. split; [reflexivity|]. symmetry. apply needEditLoop_false, En.
  - destruct (LiveAlign.needEditLoop (document ed) (maxLength (document ed)));
      reflexivity.
  - destruct (LiveAlign.needEditLoop (document ed) (maxLength (document ed)));
      reflexivity.
  - intros Hprev. rewrite pad_pass_ideal.
    destruct (Z.eqb_spec (maxLength (document ed)) (default 0 (lastMax e !! uri)));
      [congruence|reflexivity].
Qed.

Lemma padding_paths_agree_witness :
  exists ed',
    snd (LiveAlign.changeListener (idealHost (fun ed _ => selections ed))
           (Some (mkEditor [text_of_string "ab"; text_of_string "c"] []))
           (LiveAlign.mkClosure false []))
    = Some ed'
    /\ document ed' = [text_of_string "ab"; text_of_string " c"].
Proof.
  destruct (padding_paths_agree (fun ed _ => selections ed) "file:///a.txt" initialExt
              (mkEditor [text_of_string "ab"; text_of_string "c"] [])
              (LiveAlign.mkClosure false []) eq_refl)
    as ((ed' & Hed & Hdoc) & _).
  exists ed'. split; [exact Hed|]. rewrite Hdoc. vm_compute. reflexivity.
Defined.

(** X15.  The live listener issues no batch when no line is shorter
    than the longest one, and none while its guard is set: whatever the
    host would do with a batch, the editor is left as it is and nothing
    is sent to the console. *)
Theorem live_listener_idle (h : HostBehaviour) (visible : option Editor)
    (c : LiveAlign.Closure) :
  (LiveAlign.isApplyingEdits c = true
   \/ forall ed, visible = Some ed ->
        forall text, text ∈ document ed -> text_length text = maxLength (document ed)) ->
  let r := LiveAlign.changeListener h visible c in
  snd r = visible
  /\ LiveAlign.console (fst r) = LiveAlign.console c
  /\ LiveAlign.isApplyingEdits (fst r) = LiveAlign.isApplyingEdits c.
Proof.
  intros Hcase r. unfold r, LiveAlign.changeListener.
  destruct (LiveAlign.isApplyingEdits c) eqn:Eb.
  { cbn [fst snd]. split; [reflexivity|]. split; [reflexivity|exact Eb]. }
  destruct Hcase as [?|Hall]; [congruence|].
  destruct visible as [ed|]; [|cbn [fst snd]; split; [reflexivity|]; split; [reflexivity|exact Eb]].
  rewrite live_maxLengthLoop_spec by lia.
  rewrite (Z.max_r 0 (maxLength (document ed))) by apply maxLength_nonneg.
  destruct (LiveAlign.needEditLoop (document ed) (maxLength (document ed))) eqn:En.
  - apply needEditLoop_true in En as (text & Hin & Hlt).
    rewrite (Hall ed eq_refl text Hin) in Hlt. lia.
  - cbn [negb fst snd LiveAlign.console LiveAlign.isApplyingEdits]. repeat split.
Qed.

Lemma live_listener_idle_witness :
  snd (LiveAlign.changeListener refusingHost
         (Some (mkEditor [text_of_string "ab"; text_of_string " c"] []))
         (LiveAlign.mkClosure false []))
  = Some (mkEditor [text_of_string "ab"; text_of_string " c"] []).
Proof.
  apply (live_listener_idle refusingHost
           (Some (mkEditor [text_of_string "ab"; text_of_string " c"] []))
           (LiveAlign.mkClosure false [])).
  right. intros ed [= <-] text Hin. cbn [document] in Hin.
  repeat (apply elem_of_cons in Hin as [->|Hin]); try reflexivity.
  inversion Hin.
Defined.

End LiveFacts.

(** ** Rounds of unalign, and the growth of the Fibonacci widths *)

Module RoundFacts.
Import Host AlignSpec PassSpec TextFacts Commands CommandFacts JsNumber Fibonacci FibonacciFacts.
Local Open Scope Z_scope.

(** X16.  In the extension as activated, on a document whose lines all
    have the same length, as align and the listener leave it, a run of
    the unalign command removes one leading space from every line when
    every line begins with one; otherwise the document is as before the
    run, the listener having put back the space that unalign removed
    from each line that began with one.  After n runs every line has
    lost its first min(n, k) characters, k being the number of leading
    spaces common to all lines, and the number of lines has not
    changed. *)
Theorem unalign_rounds (track : Editor -> list EditOp -> list Selection)
    (n : nat) (ed : Editor) :
  (forall text, text ∈ document ed -> text_length text = maxLength (document ed)) ->
  document (afterCommand track unalignDocument ed)
  = (if forallb startsWithSpace (document ed) then map (drop 1) (document ed)
     else document ed)
  /\ document (Nat.iter n (afterCommand track unalignDocument) ed)
     = map (drop (Nat.min n (commonSpaces (document ed)))) (document ed).
Proof.
  intros Hu. split; [apply one_run_of_unalign, Hu|apply runs_of_unalign, Hu].
Qed.

Lemma unalign_rounds_witness :
  document (afterCommand (fun ed _ => selections ed) unalignDocument
              (mkEditor [text_of_string "ab"; text_of_string " c"] []))
  = [text_of_string "ab"; text_of_string " c"]
  /\ document (Nat.iter 3 (afterCommand (fun ed _ => selections ed) unalignDocument)
                 (mkEditor [text_of_string "   a"; text_of_string "  bc"] []))
     = [text_of_string " a"; text_of_string "bc"].
Proof.
  split.
  - destruct (unalign_rounds (fun ed _ => selections ed) 1
                (mkEditor [text_of_string "ab"; text_of_string " c"] [])) as (H & _).
    + intros text Hin. cbn [document] in Hin.
      repeat (apply elem_of_cons in Hin as [->|Hin]); try reflexivity.
      inversion Hin.
    + exact H.
  - destruct (unalign_rounds (fun ed _ => selections ed) 3
                (mkEditor [text_of_string "   a"; text_of_string "  bc"] [])) as (_ & H).
    + intros text Hin. cbn [document] in Hin.
      repeat (apply elem_of_cons in Hin as [->|Hin]); try reflexivity.
      inversion Hin.
    + exact H.
Defined.

(** The Fibonacci numbers grow from F(2) on. *)
Lemma Fib_pair_pos (n : nat) : 0 <= fst (Fib_pair n) /\ 0 < snd (Fib_pair n).
Proof.
  induction n as [|n [IH1 IH2]]; [cbn; lia|].
  cbn [Fib_pair]. destruct (Fib_pair n) as [x y]. cbn [fst snd] in *. lia.
Qed.

Lemma Fib_increasing (n : nat) : (2 <= n)%nat -> Fib n < Fib (S n).
Proof.
  intros Hn. destruct n as [|[|n]]; try lia.
  destruct Fib_standard as (_ & _ & Hstep).
  rewrite (Hstep (S n)).
  pose proof (Fib_pair_pos n) as [H1 H2].
  assert (0 < Fib (S n)).
  { unfold Fib. cbn [Fib_pair]. destruct (Fib_pair n) as [x y]. cbn [fst snd] in *. lia. }
  lia.
Qed.

Lemma Fib_monotone (n n' : nat) : (2 <= n)%nat -> (n < n')%nat -> Fib n < Fib n'.
Proof.
  intros Hn Hlt. induction Hlt as [|k Hk IH].
  - apply Fib_increasing, Hn.
  - pose proof (Fib_increasing k ltac:(lia)). lia.
Qed.

Lemma width_at_spec (d : nat) (z : Z) :
  (d <= 77)%nat -> width_at d z -> z = spec_width d.
Proof.
  intros Hd Hz.
  pose proof width_agrees_to_77 as Hall. rewrite forallb_forall in Hall.
  destruct (width_agrees_sound spec_width d) as (v & Hv & Hrep).
  { apply Hall, in_seq. lia. }
  exact (width_at_unique d (S d) v (spec_width d) z Hv Hrep Hz).
Qed.

(** X17.  From depth 1 to depth 77 the indent width grows strictly with
    the depth, starting at 2: a deeper level is always indented
    further, and only depth 0 has width 0. *)
Theorem width_grows_with_depth (d d' : nat) (z z' : Z) :
  (1 <= d)%nat -> (d < d')%nat -> (d' <= 77)%nat ->
  width_at d z -> width_at d' z' ->
  2 <= z /\ z < z'.
Proof.
  intros H1 Hlt H77 Hz Hz'.
  rewrite (width_at_spec d z ltac:(lia) Hz), (width_at_spec d' z' H77 Hz').
  unfold spec_width. destruct d as [|d]; [lia|]. destruct d' as [|d']; [lia|].
  pose proof (Fib_monotone (S d + 1) (S d' + 1) ltac:(lia) ltac:(lia)).
  assert (1 <= Fib (S d + 1)).
  { destruct d as [|d]; [cbn; lia|].
    pose proof (Fib_monotone 2 (S (S d) + 1) ltac:(lia) ltac:(lia)).
    change (Fib 2) with 1 in *. lia. }
  lia.
Qed.

Lemma width_grows_with_depth_witness : width_at 2 4 /\ width_at 5 16 /\ 2 <= 4 < 16.
Proof.
  assert (H2 : width_at 2 4).
  { eexists. split; [exists 3%nat; vm_compute; reflexivity|vm_compute; reflexivity]. }
  assert (H5 : width_at 5 16).
  { eexists. split; [exists 6%nat; vm_compute; reflexivity|vm_compute; reflexivity]. }
  split; [exact H2|]. split; [exact H5|].
  apply (width_grows_with_depth 2 5 4 16); try lia; assumption.
Defined.

End RoundFacts.

(** ** The loop counter of [fibonacci] at infinity *)

Module CounterFacts.
Import JsNumber Fibonacci.
Local Open Scope Z_scope.

Lemma shr_1_nonneg (mrs : shr_record) : 0 <= shr_m mrs -> 0 <= shr_m (shr_1 mrs).
Proof.
  destruct mrs as [m r s]. cbn [shr_m].
  destruct m as [|p|p]; [cbn; lia| |lia].
  intros _. destruct p; cbn; lia.
Qed.

Lemma iter_shr_1_nonneg (p : positive) (mrs : shr_record) :
  0 <= shr_m mrs -> 0 <= shr_m (SpecFloat.iter_pos shr_1 p mrs).
Proof.
  revert mrs. induction p as [p IH|p IH|]; intros mrs H; cbn [SpecFloat.iter_pos].
  - apply IH, IH, shr_1_nonneg, H.
  - apply IH, IH, H.
  - apply shr_1_nonneg, H.
Qed.

Lemma shr_fexp_nonneg (m e : Z) (l : location) :
  0 <= m -> 0 <= shr_m (fst (shr_fexp prec emax m e l)).
Proof.
  intros Hm. unfold shr_fexp, shr.
  assert (H0 : 0 <= shr_m (shr_record_of_loc m l)).
  { destruct l as [|[| |]]; exact Hm. }
  destruct (fexp prec emax (Zdigits2 m + e) - e) as [|p|p]; cbn [fst];
    [exact H0| |exact H0].
  apply iter_shr_1_nonneg, H0.
Qed.

Lemma round_nearest_even_nonneg (m : Z) (l : location) :
  0 <= m -> 0 <= round_nearest_even m l.
Proof.
  intros Hm. destruct l as [|[| |]]; cbn [round_nearest_even]; try lia.
  destruct (Z.even m); lia.
Qed.

(** Rounding a non-negative mantissa never yields NaN. *)
Lemma binary_round_aux_not_nan (sx : bool) (mx ex : Z) (lx : location) :
  0 <= mx -> binary_round_aux prec emax sx mx ex lx <> S754_nan.
Proof.
  intros Hm. unfold binary_round_aux.
  pose proof (shr_fexp_nonneg mx ex lx Hm) as H1.
  destruct (shr_fexp prec emax mx ex lx) as [mrs' e']. cbn [fst] in H1.
  pose proof (shr_fexp_nonneg _ e' loc_Exact
                (round_nearest_even_nonneg _ (loc_of_shr_record mrs') H1)) as H2.
  destruct (shr_fexp prec emax (round_nearest_even (shr_m mrs') (loc_of_shr_record mrs'))
              e' loc_Exact) as [mrs'' e''].
  cbn [fst] in H2.
  destruct (shr_m mrs'') as [|p|p]; [discriminate| |lia].
  destruct (e'' <=? emax - prec); discriminate.
Qed.

Lemma binary_normalize_not_nan (m e : Z) (szero : bool) :
  binary_normalize prec emax m e szero <> S754_nan.
Proof.
  unfold binary_normalize, binary_round.
  destruct m as [|p|p]; [discriminate| |].
  - destruct (shl_align p e _) as [mz ez]. apply binary_round_aux_not_nan. lia.
  - destruct (shl_align p e _) as [mz ez]. apply binary_round_aux_not_nan. lia.
Qed.

(** [i + 1] is a number whenever [i] is. *)
Lemma add_one_not_nan (i : number) : i <> S754_nan -> add i (of_Z 1) <> S754_nan.
Proof.
  intros Hi. change (of_Z 1) with (S754_finite false 4503599627370496 (-52)).
  unfold add, SFadd.
  destruct i as [s|s| |s m e]; try discriminate; [congruence|].
  apply binary_normalize_not_nan.
Qed.

Lemma leb_infinity (i : number) : i <> S754_nan -> leb i (S754_infinity false) = true.
Proof.
  intros Hi. destruct i as [s|[|]| |[|] m e]; try reflexivity. congruence.
Qed.

Lemma fibonacci_loop_to_infinity (fuel : nat) (i a b : number) :
  i <> S754_nan -> fibonacci_loop fuel (S754_infinity false) i a b = None.
Proof.
  revert i a b. induction fuel as [|fuel IH]; intros i a b Hi; [reflexivity|].
  cbn [fibonacci_loop]. rewrite (leb_infinity i Hi).
  apply IH, add_one_not_nan, Hi.
Qed.

(** X18.  Given Infinity, [fibonacci] never returns, and neither does
    the width function: the loop condition [i <= n] holds for every
    value the counter takes, so no amount of steps ends the loop. *)
Theorem fibonacci_of_infinity_never_returns :
  (forall v, ~ returns (fibonacci (S754_infinity false)) v)
  /\ (forall v, ~ returns (getFibonacciSpacesForDepth (S754_infinity false)) v).
Proof.
  assert (H : forall fuel, fibonacci (S754_infinity false) fuel = None).
  { intros fuel. unfold fibonacci.
    change (leb (S754_infinity false) (of_Z 1)) with false.
    apply fibonacci_loop_to_infinity. discriminate. }
  split; intros v [fuel Hfuel].
  - rewrite H in Hfuel. discriminate.
  - unfold getFibonacciSpacesForDepth in Hfuel.
    change (strict_eqb (S754_infinity false) (of_Z 0)) with false in Hfuel.
    change (add (S754_infinity false) (of_Z 1)) with (S754_infinity false) in Hfuel.
    rewrite H in Hfuel. discriminate.
Qed.

End CounterFacts.

(** ** Bursts of change events *)

Module BurstFacts.
Import Host AlignSpec PassSpec.
Local Open Scope Z_scope.

Lemma set_timers_twice (t t' : gmap string Z) (e : Ext) :
  set_timers t (set_timers t' e) = set_timers t e.
Proof. destruct e. reflexivity. Qed.

(** A listener that, while the guard is released, arms the timer of the
    document on every event that carries a change. *)
Lemma burst_idle (delay : Z) (listener : nat -> string -> Ext -> Ext) :
  (forall n uri e, isApplyingEdits e = false ->
     listener n uri e
     = if Nat.eqb n 0 then e else set_timers (<[uri := delay]> (timers e)) e) ->
  forall events uri e, isApplyingEdits e = false ->
    burst listener uri events e
    = if carriesChange events then set_timers (<[uri := delay]> (timers e)) e else e.
Proof.
  intros Hl events uri. unfold burst.
  induction events as [|n rest IH]; intros e He; [reflexivity|].
  cbn [foldl carriesChange existsb]. rewrite (Hl n uri e He).
  destruct (Nat.eqb n 0); cbn [negb orb].
  - apply IH, He.
  - rewrite IH by (destruct e; exact He).
    fold (carriesChange rest). cbn [timers set_timers].
    destruct (carriesChange rest); [|reflexivity].
    rewrite set_timers_twice. destruct e. cbn [timers]. rewrite insert_insert_eq.
    reflexivity.
Qed.

(** A listener that leaves the guard set does the same to every event
    that finds it set. *)
Lemma burst_busy (act : Ext -> Ext) (listener : nat -> string -> Ext -> Ext) :
  (forall n uri e, isApplyingEdits e = true -> listener n uri e = act e) ->
  (forall e, isApplyingEdits e = true -> isApplyingEdits (act e) = true) ->
  (forall e, act (act e) = act e) ->
  forall events uri e, isApplyingEdits e = true ->
    burst listener uri events e = match events with [] => e | _ => act e end.
Proof.
  intros Hl Hkeep Hidem events uri. unfold burst.
  induction events as [|n rest IH]; intros e He; [reflexivity|].
  cbn [foldl]. rewrite (Hl n uri e He), (IH _ (Hkeep e He)).
  destruct rest; [reflexivity|apply Hidem].
Qed.

(** X19.  Debouncing.  While the guard is released, a burst of change
    events for a document arms one timer for it, with the delay of the
    variant (50, 0 and 15 ms), if some event of the burst carries a
    change, and does nothing otherwise; nothing else is touched.  While
    the guard is set, the pad-to-max and caret-preserving listeners drop
    every event; the rerun-aware listener only notes that a rerun is
    needed, and does so even for events that carry no change. *)
Theorem burst_arms_one_timer (uri : string) (events : list nat) (e : Ext) :
  (isApplyingEdits e = false ->
     burst PadToMax.onDidChangeTextDocument uri events e
     = (if carriesChange events then set_timers (<[uri := 50]> (timers e)) e else e)
     /\ burst CaretAlign.onDidChangeTextDocument uri events e
        = (if carriesChange events then set_timers (<[uri := 0]> (timers e)) e else e)
     /\ burst RerunAlign.onDidChangeTextDocument uri events e
        = (if carriesChange events then set_timers (<[uri := 15]> (timers e)) e else e))
  /\ (isApplyingEdits e = true ->
        burst PadToMax.onDidChangeTextDocument uri events e = e
        /\ burst CaretAlign.onDidChangeTextDocument uri events e = e
        /\ burst RerunAlign.onDidChangeTextDocument uri events e
           = match events with [] => e | _ => set_needsRerun true e end).
Proof.
  split; intros He.
  - split; [|split]; apply burst_idle; try exact He;
      intros n u e0 H0;
      unfold PadToMax.onDidChangeTextDocument, CaretAlign.onDidChangeTextDocument,
        RerunAlign.onDidChangeTextDocument; rewrite H0; reflexivity.
  - split; [|split].
    + rewrite (burst_busy (fun x => x) PadToMax.onDidChangeTextDocument); auto.
      * destruct events; reflexivity.
      * intros n u e0 H0. unfold PadToMax.onDidChangeTextDocument. rewrite H0. reflexivity.
    + rewrite (burst_busy (fun x => x) CaretAlign.onDidChangeTextDocument); auto.
      * destruct events; reflexivity.
      * intros n u e0 H0. unfold CaretAlign.onDidChangeTextDocument. rewrite H0. reflexivity.
    + apply (burst_busy (set_needsRerun true)); auto.
      intros n u e0 H0. unfold RerunAlign.onDidChangeTextDocument. rewrite H0. reflexivity.
Qed.

End BurstFacts.

(** ** Selections across the caret-preserving pass *)

Module SelectionFacts.
Import Host AlignSpec PassSpec TextFacts BatchFacts RightAlignment.
Local Open Scope Z_scope.

Lemma movedCaret_monotone (old new : Doc) (desired : gmap Z Z) (p q : Position) :
  line p = line q -> character p <= character q ->
  line (movedCaret old new desired p) = line (movedCaret old new desired q)
  /\ character (movedCaret old new desired p) <= character (movedCaret old new desired q).
Proof.
  intros Hl Hc. unfold movedCaret, contentOffset. cbn [line character].
  rewrite Hl. split; [reflexivity|]. lia.
Qed.

(** X20.  The caret-preserving pass keeps the shape of every selection
    it rebuilds: a caret (an empty selection) stays a caret, and a
    selection within one line stays within that line with its start not
    after its end. *)
Theorem selection_shape_kept (track : Editor -> list EditOp -> list Selection)
    (uri : string) (e : Ext) (d : Doc) (sels : list Selection)
    (idx : nat) (s : Selection) :
  Forall (validSelection d) sels ->
  (exists text, text ∈ d /\ leadingLength text <> desiredWidth d text) ->
  sels !! idx = Some s ->
  let r := CaretAlign.runAlignment (idealHost track) uri (shown d sels) e in
  exists s',
    selectionsAfter r !! idx = Some s'
    /\ (sel_start s = sel_end s -> sel_start s' = sel_end s')
    /\ (line (sel_start s) = line (sel_end s) ->
        character (sel_start s) <= character (sel_end s) ->
        line (sel_start s') = line (sel_end s')
        /\ character (sel_start s') <= character (sel_end s')).
Proof.
  intros Hv Hne Hs r. unfold r.
  rewrite (caret_pass_selections track uri e d sels Hv Hne).
  rewrite list_lookup_fmap, Hs. cbn [fmap option_fmap option_map].
  eexists. split; [reflexivity|]. unfold movedSelection. cbn [sel_start sel_end].
  split.
  - intros ->. reflexivity.
  - apply movedCaret_monotone.
Qed.

Lemma selection_shape_kept_witness :
  exists s',
    selectionsAfter (CaretAlign.runAlignment (idealHost (fun ed _ => selections ed)) "file:///a.txt"
                       (shown [text_of_string "ab"; text_of_string "cdef"]
                              [mkSelection (mkPosition 0 1) (mkPosition 0 1)])
                       initialExt) !! 0%nat = Some s'
    /\ sel_start s' = sel_end s'.
Proof.
  destruct (selection_shape_kept (fun ed _ => selections ed) "file:///a.txt" initialExt
              [text_of_string "ab"; text_of_string "cdef"]
              [mkSelection (mkPosition 0 1) (mkPosition 0 1)] 0
              (mkSelection (mkPosition 0 1) (mkPosition 0 1)))
    as (s' & Hs' & Hcaret & _).
  - repeat constructor; cbn; lia.
  - exists (text_of_string "ab"). split; [left|]. vm_compute. discriminate.
  - reflexivity.
  - exists s'. split; [exact Hs'|]. apply Hcaret. reflexivity.
Defined.

End SelectionFacts.
